(** * GM_config ambient declarations: a model of the declared type surface

    The repository consists of TypeScript ambient declarations only
    ([index.d.ts] and a second, shorter declaration file).  There is no
    executable code: what the files define is a table of named types.

    The development therefore has three layers.

    - [ty], [member], [decl]: the declarations as they are written
      (type expressions, interface members, aliases, interfaces, globals).
    - [members_of], [keys_of], [lit_domain], [index_type]: how the
      TypeScript checker resolves names, inheritance, [keyof] and indexed
      access over such a table.
    - [has_type]: which JavaScript values are structurally inside a declared
      type.  This is what turns "the property is optional" or "the list is
      non-empty" into statements about values.
    - [assignable], [new_call]: when one type fits another, and what a call
      of a construct signature owes and gives.

    Names are written relative to [namespace GMConfig]; members of the
    nested namespaces are written [fields.TextField], [events.OnOpen].
    Export modifiers and comments are not part of the table. *)

From Stdlib Require Import String List Bool ZArith QArith Lia.
Import ListNotations.
Close Scope Q_scope.
Open Scope string_scope.
Set Warnings "-register-all".

(** ** Type expressions *)

Inductive ty : Type :=
| TString
| TNumber
| TBoolean
| TUndefined
| TUnknown
| TVoid
| TLit (s : string)                         (* 'text' *)
| TVar (x : string)                         (* a type parameter in scope *)
| TRef (name : string) (args : list ty)     (* Field, Instance<X>, Element *)
| TUnion (ts : list ty)                     (* A | B *)
| TInter (ts : list ty)                     (* A & B *)
| TArray (elem : ty)                        (* T[] *)
| TReadonly (t : ty)                        (* readonly T *)
| TTuple (fixed : list ty) (rest : option ty)   (* [A, B, ...R[]] *)
| TFun (tps : list (string * option ty * option ty))
       (ps : list (bool * string * ty)) (ret : ty)
| TObj (props : list (string * bool * ty))  (* { k: T; k2?: T2 } *)
| TIndex (t : ty) (k : ty)                  (* T[K] *)
| TKeyof (t : ty)                           (* keyof T *)
| TMapped (k : string) (dom : ty) (body : ty).  (* { [k in dom]: body } *)

(** A type parameter [<X extends C = D>]. *)
Definition tparam : Type := string * option ty * option ty.
Definition tp (x : string) : tparam := (x, None, None).
Definition tp_ext (x : string) (c : ty) : tparam := (x, Some c, None).
Definition tp_ext_def (x : string) (c d : ty) : tparam := (x, Some c, Some d).
Definition tp_name (p : tparam) : string := fst (fst p).
Definition tp_default (p : tparam) : option ty := snd p.

(** A function parameter; the flag marks a rest parameter [...args]. *)
Definition param : Type := bool * string * ty.
Definition arg (x : string) (t : ty) : param := (false, x, t).
Definition rest_arg (x : string) (t : ty) : param := (true, x, t).

Definition ref (name : string) : ty := TRef name [].

(** ** Declarations *)

Inductive member_kind := PropertySig | MethodSig | ConstructSig.

Record member := Member
  { m_name : string;
    m_optional : bool;
    m_kind : member_kind;
    m_type : ty }.

Definition prop (name : string) (t : ty) : member :=
  Member name false PropertySig t.
Definition prop_opt (name : string) (t : ty) : member :=
  Member name true PropertySig t.
Definition method (name : string) (tps : list tparam) (ps : list param)
    (ret : ty) : member :=
  Member name false MethodSig (TFun tps ps ret).
Definition construct (tps : list tparam) (ps : list param) (ret : ty)
    : member :=
  Member "new" false ConstructSig (TFun tps ps ret).

Inductive decl :=
| DAlias (name : string) (tps : list tparam) (body : ty)
| DInterface (name : string) (tps : list tparam) (extends : list ty)
             (members : list member)
| DVar (name : string) (t : ty).

Definition decl_name (d : decl) : string :=
  match d with
  | DAlias n _ _ | DInterface n _ _ _ | DVar n _ => n
  end.

Definition is_type_decl (d : decl) : bool :=
  match d with DVar _ _ => false | _ => true end.

(** The type namespace and the value namespace are separate. *)
Fixpoint find_decl (D : list decl) (name : string) : option decl :=
  match D with
  | [] => None
  | d :: D' =>
      if is_type_decl d && String.eqb (decl_name d) name then Some d
      else find_decl D' name
  end.

Fixpoint find_var (D : list decl) (name : string) : option ty :=
  match D with
  | [] => None
  | DVar n t :: D' => if String.eqb n name then Some t else find_var D' name
  | _ :: D' => find_var D' name
  end.

(** ** Substitution of type parameters *)

Definition env := list (string * ty).

Fixpoint env_get (x : string) (s : env) : option ty :=
  match s with
  | [] => None
  | (y, t) :: s' => if String.eqb x y then Some t else env_get x s'
  end.

Definition env_drop (xs : list string) (s : env) : env :=
  filter (fun b => negb (existsb (String.eqb (fst b)) xs)) s.

Fixpoint subst (s : env) (t : ty) : ty :=
  match t with
  | TVar x => match env_get x s with Some u => u | None => TVar x end
  | TRef n args => TRef n (map (subst s) args)
  | TUnion ts => TUnion (map (subst s) ts)
  | TInter ts => TInter (map (subst s) ts)
  | TArray e => TArray (subst s e)
  | TReadonly u => TReadonly (subst s u)
  | TTuple fixed rest => TTuple (map (subst s) fixed) (option_map (subst s) rest)
  | TFun tps ps ret =>
      let s' := env_drop (map tp_name tps) s in
      TFun (map (fun p : tparam =>
                   (fst (fst p), option_map (subst s') (snd (fst p)),
                    option_map (subst s') (snd p))) tps)
           (map (fun p : param => (fst p, subst s' (snd p))) ps)
           (subst s' ret)
  | TObj props => TObj (map (fun p => (fst p, subst s (snd p))) props)
  | TIndex u k => TIndex (subst s u) (subst s k)
  | TKeyof u => TKeyof (subst s u)
  | TMapped k dom body => TMapped k (subst s dom) (subst (env_drop [k] s) body)
  | _ => t
  end.

(** Binding the parameters of a generic declaration to the arguments of a
    reference; a missing argument takes the parameter's default. *)
Fixpoint bind (tps : list tparam) (args : list ty) : env :=
  match tps, args with
  | [], _ => []
  | p :: tps', a :: args' => (tp_name p, a) :: bind tps' args'
  | p :: tps', [] =>
      match tp_default p with
      | Some d => (tp_name p, d) :: bind tps' []
      | None => bind tps' []
      end
  end.

Definition subst_member (s : env) (m : member) : member :=
  Member (m_name m) (m_optional m) (m_kind m) (subst s (m_type m)).

(** ** Resolution over a declaration table

    Every resolution step enters a declaration or a component of an
    intersection, so a budget linear in the size of the table is enough for
    the tables below; the budget is closed, and the functions compute. *)

Definition budget (D : list decl) : nat := 2 * length D + 4.

Definition obj_member (p : string * bool * ty) : member :=
  Member (fst (fst p)) (snd (fst p)) PropertySig (snd p).

Definition make_optional (m : member) : member :=
  Member (m_name m) true (m_kind m) (m_type m).

Definition declared_in (ms : list member) (m : member) : bool :=
  existsb (fun m' => String.eqb (m_name m') (m_name m)) ms.

(** The members of an object type: the own members of an interface first,
    then the inherited ones it does not redeclare. *)
Fixpoint members_fuel (n : nat) (D : list decl) (t : ty) : list member :=
  match n with
  | 0 => []
  | S n' =>
      match t with
      | TObj props => map obj_member props
      | TInter ts => flat_map (members_fuel n' D) ts
      | TReadonly u => members_fuel n' D u
      | TRef name args =>
          match find_decl D name with
          | Some (DAlias _ tps body) =>
              members_fuel n' D (subst (bind tps args) body)
          | Some (DInterface _ tps exts ms) =>
              let s := bind tps args in
              let own := map (subst_member s) ms in
              own ++ filter (fun m => negb (declared_in own m))
                       (flat_map (fun e => members_fuel n' D (subst s e)) exts)
          | _ =>
              if String.eqb name "Partial" then
                match args with
                | [u] => map make_optional (members_fuel n' D u)
                | _ => []
                end
              else []
          end
      | _ => []
      end
  end.

Definition members_of (D : list decl) (t : ty) : list member :=
  members_fuel (budget D) D t.

Definition find_member (D : list decl) (t : ty) (k : string)
    : option member :=
  find (fun m => String.eqb (m_name m) k) (members_of D t).

Definition member_type (D : list decl) (t : ty) (k : string) : option ty :=
  option_map m_type (find_member D t k).

(** [keyof T]: the member names, each once, in declaration order. *)
Fixpoint dedup (l : list string) : list string :=
  match l with
  | [] => []
  | x :: l' => x :: filter (fun y => negb (String.eqb x y)) (dedup l')
  end.

Definition keys_of (D : list decl) (t : ty) : list string :=
  dedup (map m_name (members_of D t)).

(** [T['k']]. *)
Definition index_type (D : list decl) (t k : ty) : option ty :=
  match k with
  | TLit s => member_type D t s
  | _ => None
  end.

(** Aliases are transparent: chase them to the type they stand for. *)
Fixpoint resolve_fuel (n : nat) (D : list decl) (t : ty) : ty :=
  match n with
  | 0 => t
  | S n' =>
      match t with
      | TRef name args =>
          match find_decl D name with
          | Some (DAlias _ tps body) =>
              resolve_fuel n' D (subst (bind tps args) body)
          | _ => t
          end
      | _ => t
      end
  end.

Definition resolve (D : list decl) (t : ty) : ty :=
  resolve_fuel (budget D) D t.

(** The string literals a type ranges over (a union of literals, a
    [keyof], or an alias of one). *)
Fixpoint lit_domain_fuel (n : nat) (D : list decl) (t : ty) : list string :=
  match n with
  | 0 => []
  | S n' =>
      match t with
      | TLit s => [s]
      | TUnion ts => flat_map (lit_domain_fuel n' D) ts
      | TKeyof u => keys_of D u
      | TRef name args =>
          match find_decl D name with
          | Some (DAlias _ tps body) =>
              lit_domain_fuel n' D (subst (bind tps args) body)
          | _ => []
          end
      | _ => []
      end
  end.

Definition lit_domain (D : list decl) (t : ty) : list string :=
  lit_domain_fuel (budget D) D t.

Definition is_function_type (D : list decl) (t : ty) : bool :=
  match resolve D t with
  | TFun _ _ _ => true
  | _ => false
  end.

(** ** JavaScript values and structural conformance *)

Inductive jsval : Type :=
| VUndefined
| VStr (s : string)
| VNum (q : Q)
| VBool (b : bool)
| VArr (items : list jsval)
| VObj (props : list (string * jsval))
| VFun (arity : nat)               (* a function and its parameter count *)
| VDom (chain : list string).     (* a DOM node and the classes it is an
                                     instance of, its own class first *)

Fixpoint obj_get (k : string) (fs : list (string * jsval)) : option jsval :=
  match fs with
  | [] => None
  | (k', v) :: fs' => if String.eqb k k' then Some v else obj_get k fs'
  end.

Definition is_undefined (v : jsval) : bool :=
  match v with VUndefined => true | _ => false end.

(** The DOM class names the declarations mention.  Which class extends
    which is the library's business: a node says what it is an instance
    of. *)
Definition dom_classes : list string :=
  ["Element"; "HTMLElement"; "Document"; "Window"; "Text"].

Definition dom_sub (chain : list string) (name : string) : bool :=
  existsb (String.eqb name) dom_classes && existsb (String.eqb name) chain.

(** A weak type: at least one member, and every member optional. *)
Definition is_weak (ms : list member) : bool :=
  match ms with
  | [] => false
  | _ =>
      forallb (fun m =>
                 match m_kind m with
                 | ConstructSig => false
                 | _ => m_optional m
                 end) ms
  end.

(** What a weak type asks of an object: no property at all, or one of the
    type's own. *)
Definition shares_member (ms : list member) (fs : list (string * jsval))
    : bool :=
  match fs with
  | [] => true
  | _ =>
      existsb (fun m =>
                 match obj_get (m_name m) fs with
                 | Some _ => true
                 | None => false
                 end) ms
  end.

(** A function of [arity] parameters fits a signature that passes at
    least as many arguments.  A function value carries no parameter
    types, so the arity is all that is compared. *)
Definition arity_fits (arity : nat) (ps : list (bool * string * ty)) : bool :=
  existsb (fun p => fst (fst p)) ps || Nat.leb arity (length ps).

Section Conformance.

Variable D : list decl.
(** The check one level down. *)
Variable rec : ty -> jsval -> bool.

(** A property [k: T] needs a value of type [T]; [k?: T] may also be
    absent or [undefined]. *)
Definition prop_ok (opt : bool) (t : ty) (o : option jsval) : bool :=
  match o with
  | Some x => rec t x || (opt && is_undefined x)
  | None => opt
  end.

Fixpoint tuple_ok (fixed : list ty) (rest : option ty) (l : list jsval)
    : bool :=
  match fixed, l with
  | [], _ =>
      match rest with
      | Some r => forallb (rec r) l
      | None => match l with [] => true | _ => false end
      end
  | t :: fixed', x :: l' => rec t x && tuple_ok fixed' rest l'
  | _ :: _, [] => false
  end.

(** An object has every property and method member; a constructor
    function is what carries a construct signature.  A weak type takes
    neither a function nor an object whose properties are all foreign to
    it. *)
Definition members_ok (ms : list member) (v : jsval) : bool :=
  match v with
  | VObj fs =>
      (negb (is_weak ms) || shares_member ms fs)
      &&
      forallb (fun m =>
                 match m_kind m with
                 | ConstructSig => false
                 | _ => prop_ok (m_optional m) (m_type m)
                          (obj_get (m_name m) fs)
                 end) ms
  | VFun _ =>
      negb (is_weak ms)
      &&
      forallb (fun m =>
                 match m_kind m with
                 | ConstructSig => true
                 | _ => m_optional m
                 end) ms
  | _ => false
  end.

(** References the table does not declare: the utility types
    [Record], [ReadonlyArray], [Partial], and the DOM classes. *)
Definition ambient_ok (name : string) (args : list ty) (v : jsval) : bool :=
  if String.eqb name "Record" then
    match args, v with
    | [TString; tv], VObj fs => forallb (fun kv => rec tv (snd kv)) fs
    | _, _ => false
    end
  else if String.eqb name "ReadonlyArray" then
    match args, v with
    | [e], VArr l => forallb (rec e) l
    | _, _ => false
    end
  else if String.eqb name "Partial" then
    match v with
    | VObj _ => members_ok (members_of D (TRef name args)) v
    | _ => false
    end
  else
    match args, v with
    | [], VDom chain => dom_sub chain name
    | _, _ => false
    end.

Definition check_step (t : ty) (v : jsval) : bool :=
  match t with
  | TString => match v with VStr _ => true | _ => false end
  | TNumber => match v with VNum _ => true | _ => false end
  | TBoolean => match v with VBool _ => true | _ => false end
  | TUndefined | TVoid => is_undefined v
  | TUnknown => true
  | TLit s => match v with VStr s' => String.eqb s s' | _ => false end
  | TVar _ => false
  | TRef name args =>
      match find_decl D name with
      | Some (DAlias _ tps body) => rec (subst (bind tps args) body) v
      | Some (DInterface _ _ _ _) => members_ok (members_of D t) v
      | _ => ambient_ok name args v
      end
  | TUnion ts => existsb (fun u => rec u v) ts
  | TInter ts => forallb (fun u => rec u v) ts
  | TArray e => match v with VArr l => forallb (rec e) l | _ => false end
  | TReadonly u => rec u v
  | TTuple fixed rest =>
      match v with VArr l => tuple_ok fixed rest l | _ => false end
  | TFun _ ps _ => match v with VFun a => arity_fits a ps | _ => false end
  | TObj props => members_ok (map obj_member props) v
  | TIndex u k =>
      match index_type D u k with Some w => rec w v | None => false end
  | TKeyof u =>
      match v with
      | VStr s => existsb (String.eqb s) (keys_of D u)
      | _ => false
      end
  | TMapped k dom body =>
      members_ok
        (map (fun key => prop key (subst [(k, TLit key)] body))
             (lit_domain D dom)) v
  end.

End Conformance.

(** [has_type n D t v]: [v] is inside [t], found within [n] levels. *)
Fixpoint has_type (n : nat) (D : list decl) (t : ty) (v : jsval) : bool :=
  match n with
  | 0 => false
  | S n' => check_step D (has_type n' D) t v
  end.

Definition conforms (D : list decl) (t : ty) (v : jsval) : Prop :=
  exists n, has_type n D t v = true.

(** ** The declarations of [index.d.ts] *)

Module IndexDts.

Definition LabelPosition : decl :=
  DAlias "LabelPosition" []
    (TUnion [TLit "above"; TLit "below"; TLit "right"; TLit "left"]).

(* The tuple elements are labelled Heading and SubHeading. *)
Definition LabelSection : decl :=
  DAlias "LabelSection" []
    (TUnion [TString; ref "Element";
             TTuple [TUnion [TString; ref "Element"];
                     TUnion [TString; ref "Element"; TUndefined]] None]).

Definition Type_ : decl := DAlias "Type" [] (TKeyof (ref "TypeMap")).

Definition TypeMap : decl :=
  DInterface "TypeMap" [] []
    [ prop "text" TString;
      prop "textarea" TString;
      prop "unsigned int" TNumber;
      prop "int" TNumber;
      prop "float" TNumber;
      prop "checkbox" TBoolean;
      prop "radio" TString;
      prop "select" TUndefined;
      prop "button" TUndefined;
      prop "hidden" TUnknown ].

Definition Handle : decl := DAlias "Handle" [] (TFun [] [] TVoid).

Definition FieldPropertyValue : decl :=
  DAlias "FieldPropertyValue" []
    (TUnion [TString; TRef "ReadonlyArray" [TString]; TNumber; ref "Handle"]).

Definition Field : decl :=
  DInterface "Field" [] []
    [ prop "type" (ref "Type");
      prop "label" TString;
      prop_opt "labelPos" TString;
      prop_opt "section" (ref "LabelSection") ].

Module fields.

Definition nonempty_strings : ty :=
  TReadonly (TTuple [TString] (Some TString)).

Definition TextField : decl :=
  DInterface "fields.TextField" [] [ref "Field"]
    [ prop "type" (TLit "text");
      prop "default" TString;
      prop_opt "size" TNumber ].

Definition TextAreaField : decl :=
  DInterface "fields.TextAreaField" [] [ref "Field"]
    [ prop "type" (TLit "textarea");
      prop "default" TString;
      prop_opt "size" TNumber ].

Definition UIntField : decl :=
  DInterface "fields.UIntField" [] [ref "Field"]
    [ prop "type" (TLit "unsigned int");
      prop "default" TNumber;
      prop_opt "min" TNumber;
      prop_opt "max" TNumber ].

Definition IntField : decl :=
  DInterface "fields.IntField" [] [ref "Field"]
    [ prop "type" (TLit "int");
      prop_opt "min" TNumber;
      prop_opt "max" TNumber;
      prop "default" TNumber ].

Definition FloatField : decl :=
  DInterface "fields.FloatField" [] [ref "Field"]
    [ prop "type" (TLit "float");
      prop "default" TNumber ].

Definition CheckboxField : decl :=
  DInterface "fields.CheckboxField" [] [ref "Field"]
    [ prop "type" (TLit "checkbox");
      prop "default" TBoolean ].

Definition SelectField : decl :=
  DInterface "fields.SelectField" [] [ref "Field"]
    [ prop "type" (TLit "checkbox");
      prop "options" nonempty_strings;
      prop_opt "default" TString ].

Definition RadioField : decl :=
  DInterface "fields.RadioField" [] [ref "Field"]
    [ prop "type" (TLit "radio");
      prop "options" nonempty_strings;
      prop_opt "default" TString ].

Definition HiddenField : decl :=
  DInterface "fields.HiddenField" [] [ref "Field"]
    [ prop "type" (TLit "hidden");
      prop "value" TString ].

Definition ButtonField : decl :=
  DInterface "fields.ButtonField" [] [ref "Field"]
    [ prop "type" (TLit "button");
      prop_opt "size" TNumber;
      prop "click" (TFun [] [] TVoid) ].

End fields.

Definition InitOptions_fields : ty := TIndex (ref "InitOptions") (TLit "fields").

Module events.

Definition OnInit : decl := DAlias "events.OnInit" [] (TFun [] [] TVoid).

Definition OnOpen : decl :=
  DAlias "events.OnOpen" []
    (TFun [] [arg "document" (ref "Document"); arg "window" (ref "Window");
              arg "frame" (ref "HTMLElement")] TVoid).

Definition OnSave : decl :=
  DAlias "events.OnSave" [tp_ext "F" InitOptions_fields]
    (TFun [] [arg "fields" (TVar "F")] TVoid).

Definition OnClose : decl := DAlias "events.OnClose" [] (TFun [] [] TVoid).

Definition OnReset : decl := DAlias "events.OnReset" [] (TFun [] [] TVoid).

End events.

Definition Events : decl :=
  DInterface "Events" [tp_ext_def "F" InitOptions_fields InitOptions_fields] []
    [ prop_opt "onInit" (ref "events.OnInit");
      prop_opt "onOpen" (ref "events.OnOpen");
      prop_opt "onSave" (TRef "events.OnSave" [TVar "F"]);
      prop_opt "onClose" (ref "events.OnClose");
      prop_opt "onReset" (ref "events.OnReset") ].

Definition ConfigFields : decl :=
  DAlias "ConfigFields" [] (TRef "Record" [TString; ref "Field"]).

Definition InitOptions : decl :=
  DInterface "InitOptions" [] []
    [ prop "id" TString;
      prop "title" TString;
      prop "fields" (ref "ConfigFields");
      prop "css" TString;
      prop_opt "events" (TRef "Events" [InitOptions_fields]);
      prop_opt "frame" (ref "HTMLElement") ].

Definition tag_map : ty := ref "ElementTagNameMap".

Definition Instance : decl :=
  DInterface "Instance" [tp_ext_def "F" (ref "ConfigFields") (ref "ConfigFields")] []
    [ method "init" [] [arg "options" (ref "InitOptions")] TVoid;
      method "open" [] [] TVoid;
      method "set" [tp_ext "FK" (TKeyof (TVar "F"));
                    tp_ext "FKT" (TIndex (TVar "F") (TVar "FK"))]
             [arg "key" (TVar "FK"); arg "value" (TVar "FKT")] TVoid;
      method "init" [] [] TVoid;
      method "open" [] [] TVoid;
      method "save" [] [] TVoid;
      method "close" [] [] TVoid;
      method "set" [tp "T"] [arg "key" TString; arg "value" (TVar "T")] TVoid;
      method "get" [tp "T"] [arg "key" TString] (TUnion [TVar "T"; TUndefined]);
      method "write" [] [] TVoid;
      method "read" [] [] TVoid;
      method "reset" [] [] TVoid;
      method "create" [tp_ext "T" (TKeyof tag_map)]
             [rest_arg "args" (TTuple [TVar "T"; TString] None)]
             (TIndex tag_map (TVar "T"));
      method "create"
             [tp_ext "T" (TKeyof tag_map);
              tp_ext "P"
                (TRef "Partial"
                   [TMapped "Key" (TKeyof (TIndex tag_map (TVar "T")))
                      (TIndex (TIndex tag_map (TVar "T")) (TVar "Key"))])]
             [rest_arg "args" (TTuple [TVar "T"; TVar "P"] None)]
             (TInter [TIndex tag_map (TVar "T"); TVar "P"]);
      method "create" [] [rest_arg "args" (TTuple [TString] None)] (ref "Text");
      method "center" [] [] TVoid;
      method "remove" [] [arg "el" (ref "Element")] TVoid;
      prop "onOpen" (ref "events.OnOpen");
      prop "onSave" (TRef "events.OnSave" [TVar "F"]);
      prop "onClose" (ref "events.OnClose");
      prop "onReset" (ref "events.OnReset");
      prop "id" TString;
      prop "fields" (TVar "F");
      prop "title" TString;
      prop "css" TString ].

Definition Constructor : decl :=
  DInterface "Constructor" [] []
    [ construct [tp_ext "C" (ref "InitOptions")] [arg "config" (TVar "C")]
        (TRef "Instance" [TIndex (TVar "C") (TLit "fields")]) ].

Definition GM_config : decl := DVar "GM_config" (ref "Instance").

Definition GM_configInit : decl := DVar "GM_configInit" (ref "Constructor").

Definition decls : list decl :=
  [ LabelPosition; LabelSection; Type_; TypeMap; Handle; FieldPropertyValue;
    Field;
    fields.TextField; fields.TextAreaField; fields.UIntField;
    fields.IntField; fields.FloatField; fields.CheckboxField;
    fields.SelectField; fields.RadioField; fields.HiddenField;
    fields.ButtonField;
    events.OnInit; events.OnOpen; events.OnSave; events.OnClose;
    events.OnReset;
    Events; ConfigFields; InitOptions; Instance; Constructor;
    GM_config; GM_configInit ].

End IndexDts.

(** ** The declarations of the second file *)

Module Part000.

Definition LabelPosition : decl :=
  DAlias "LabelPosition" [] (TUnion [TLit "right"; TLit "below"; TLit "above"]).

Definition Type_ : decl := DAlias "Type" [] (TKeyof (ref "TypeMap")).

Definition TypeMap : decl :=
  DAlias "TypeMap" []
    (TObj [ ("text", false, TString);
            ("textarea", false, TString);
            ("unsigned int", false, TNumber);
            ("float", false, TNumber);
            ("checkbox", false, TBoolean);
            ("radio", false, TString);
            ("select", false, TUndefined);
            ("button", false, TUndefined);
            ("hidden", false, TUnknown) ]).

Definition Field : decl :=
  DInterface "Field" [tp_ext_def "T" (ref "Type") (ref "Type")] []
    [ prop "label" TString;
      prop_opt "labelPos" TString;
      prop "type" (TVar "T");
      prop_opt "section" TString ].

Module fields.

Definition TextField : decl :=
  DAlias "fields.TextField" []
    (TInter [TRef "Field" [TLit "text"]; TObj [("default", false, TString)]]).

Definition TextAreaField : decl :=
  DAlias "fields.TextAreaField" []
    (TInter [TRef "Field" [TLit "textarea"];
             TObj [("default", false, TString)]]).

Definition UIntField : decl :=
  DAlias "fields.UIntField" []
    (TInter [TRef "Field" [TLit "unsigned int"];
             TObj [("default", false, TNumber)]]).

Definition RadioField : decl :=
  DAlias "fields.RadioField" []
    (TInter [TRef "Field" [TLit "radio"];
             TObj [("default", false, TString);
                   ("options", false, TArray TString)]]).

Definition FloatField : decl :=
  DAlias "fields.FloatField" []
    (TInter [TRef "Field" [TLit "float"]; TObj [("default", false, TString)]]).

Definition ButtonField : decl :=
  DAlias "fields.ButtonField" []
    (TInter [TRef "Field" [TLit "button"];
             TObj [("click", false, TFun [] [] TVoid)]]).

End fields.

Definition InitOptions : decl :=
  DInterface "InitOptions" [] []
    [ prop "id" TString;
      prop "title" TString;
      prop "fields" (TRef "Record" [TString; ref "Field"]);
      prop "css" TString ].

Definition ConfigConstructorOptions : decl :=
  DInterface "ConfigConstructorOptions" [] [ref "InitOptions"]
    [ prop "frame" (ref "HTMLElement") ].

Definition Instance : decl :=
  DInterface "Instance" [] []
    [ method "init" [] [arg "options" (ref "InitOptions")] TVoid;
      method "open" [] [] TVoid;
      method "set" [tp_ext "T" (TIndex (ref "TypeMap") (ref "Type"))]
             [arg "key" TString; arg "value" (TVar "T")] TVoid ].

Definition Constructor : decl :=
  DInterface "Constructor" [] []
    [ construct [] [arg "config" (ref "ConfigConstructorOptions")]
        (ref "Instance") ].

Definition decls : list decl :=
  [ LabelPosition; Type_; TypeMap; Field;
    fields.TextField; fields.TextAreaField; fields.UIntField;
    fields.RadioField; fields.FloatField; fields.ButtonField;
    InitOptions; ConfigConstructorOptions; Instance; Constructor ].

End Part000.

(** ** The field variants of a table and their discriminants *)

Definition in_fields_namespace (d : decl) : bool :=
  is_type_decl d && String.prefix "fields." (decl_name d).

Definition field_variants (D : list decl) : list string :=
  map decl_name (filter in_fields_namespace D).

(** The literal a variant declares for [type], if it declares one. *)
Definition discriminant (D : list decl) (variant : string) : option string :=
  match member_type D (ref variant) "type" with
  | Some (TLit s) => Some s
  | _ => None
  end.

Definition is_key (D : list decl) (t : ty) (k : string) : bool :=
  existsb (String.eqb k) (keys_of D t).

(** * Notions the statements are about *)

(** ** The constructor and [Instance.fields] *)

Definition construct_sig (D : list decl) (t : ty) : option member :=
  find (fun m => match m_kind m with ConstructSig => true | _ => false end)
       (members_of D t).

(** The type of [new g<targs>(...)] for a global [g]. *)
Definition new_type (D : list decl) (g : string) (targs : list ty)
    : option ty :=
  match find_var D g with
  | Some t =>
      match construct_sig D t with
      | Some (Member _ _ _ (TFun tps _ ret)) => Some (subst (bind tps targs) ret)
      | _ => None
      end
  | None => None
  end.

(** The type of reading property [k] off the result of [new g<C>(config)]. *)
Definition new_then_read (D : list decl) (g : string) (C : ty) (k : string)
    : option ty :=
  match new_type D g [C] with
  | Some inst => member_type D inst k
  | None => None
  end.

(** An indexed access into a type whose members are known stands for the
    member's type. *)
Definition eval_index (D : list decl) (t : ty) : ty :=
  match t with
  | TIndex u k =>
      match index_type D u k with
      | Some w => w
      | None => t
      end
  | _ => t
  end.

(** An options type written out as an object literal type. *)
Definition literal_options (fields_shape : ty) : ty :=
  TObj [ ("id", false, TString); ("title", false, TString);
         ("fields", false, fields_shape); ("css", false, TString) ].

(** ** Assignability between types

    [assignable] relates two type expressions the way the checker relates
    a source type to a target type.  It answers [true] only where one of
    the rules below establishes it: function parameters are compared
    contravariantly, generic signatures and rest parameters are not
    related, and two library class names are related only when they are
    the same name, since the library's class hierarchy is not part of the
    repository. *)

(** Aliases, and indexed accesses into a known member, stand for what
    they denote. *)
Fixpoint expose_fuel (n : nat) (D : list decl) (t : ty) : ty :=
  match n with
  | 0 => t
  | S n' =>
      match t with
      | TRef name args =>
          match find_decl D name with
          | Some (DAlias _ tps body) =>
              expose_fuel n' D (subst (bind tps args) body)
          | _ => t
          end
      | TIndex u (TLit k) =>
          match find_member D u k with
          | Some m =>
              if m_optional m then TUnion [m_type m; TUndefined]
              else expose_fuel n' D (m_type m)
          | None => t
          end
      | _ => t
      end
  end.

Definition expose (D : list decl) (t : ty) : ty :=
  expose_fuel (budget D) D t.

Definition object_like (D : list decl) (t : ty) : bool :=
  match t with
  | TObj _ => true
  | TRef name _ =>
      match find_decl D name with
      | Some (DInterface _ _ _ _) => true
      | Some _ => false
      | None => String.eqb name "Partial"
      end
  | _ => false
  end.

Definition has_rest (ps : list (bool * string * ty)) : bool :=
  existsb (fun p => fst (fst p)) ps.

Definition is_construct (m : member) : bool :=
  match m_kind m with ConstructSig => true | _ => false end.

Section Assign.

Variable D : list decl.
(** The relation one level down. *)
Variable rec : ty -> ty -> bool.

(** Target member [mt] is answered by the source members [sm]: a member of
    that name, no less required, of an assignable type; or none, when [mt]
    is optional. *)
Definition member_assignable (sm : list member) (mt : member) : bool :=
  negb (is_construct mt)
  && match find (fun m => String.eqb (m_name m) (m_name mt)) sm with
     | Some ms =>
         negb (is_construct ms)
         && (negb (m_optional ms) || m_optional mt)
         && rec (m_type ms) (m_type mt)
     | None => m_optional mt
     end.

(** A weak target wants a source without members or with one in common. *)
Definition weak_target_ok (sm tm : list member) : bool :=
  negb (is_weak tm)
  || match sm with
     | [] => true
     | _ => existsb (declared_in sm) tm
     end.

Definition objects_assignable (s t : ty) : bool :=
  object_like D s
  && weak_target_ok (members_of D s) (members_of D t)
  && forallb (member_assignable (members_of D s)) (members_of D t).

Fixpoint tuple_assignable (fixed : list ty) (rest : option ty)
    (fixed' : list ty) (rest' : option ty) : bool :=
  match fixed, fixed' with
  | [], [] =>
      match rest, rest' with
      | None, _ => true
      | Some r, Some r' => rec r r'
      | Some _, None => false
      end
  | a :: fixed, b :: fixed' => rec a b && tuple_assignable fixed rest fixed' rest'
  | _, _ => false
  end.

Definition elements_assignable (fixed : list ty) (rest : option ty) (e : ty)
    : bool :=
  forallb (fun a => rec a e) fixed
  && match rest with Some r => rec r e | None => true end.

(** Plain signatures only; the target's parameters flow into the
    source's, and a target returning [void] takes any result. *)
Definition fun_assignable
    (tps : list (string * option ty * option ty))
    (ps : list (bool * string * ty)) (ret : ty)
    (tps' : list (string * option ty * option ty))
    (ps' : list (bool * string * ty)) (ret' : ty) : bool :=
  match tps, tps' with
  | [], [] =>
      negb (has_rest ps) && negb (has_rest ps')
      && Nat.leb (length ps) (length ps')
      && forallb (fun pp => rec (snd (snd pp)) (snd (fst pp))) (combine ps ps')
      && match ret' with TVoid => true | _ => rec ret ret' end
  | _, _ => false
  end.

(** Targets the table does not declare. *)
Definition ambient_assignable (name : string) (args : list ty) (s : ty)
    : bool :=
  if String.eqb name "Record" then
    match args with
    | [TString; tv] =>
        match s with
        | TRef name' [TString; sv] =>
            String.eqb name' "Record" && negb (object_like D s) && rec sv tv
        | TObj props =>
            forallb (fun p => negb (snd (fst p)) && rec (snd p) tv) props
        | _ => false
        end
    | _ => false
    end
  else if String.eqb name "ReadonlyArray" then
    match args with
    | [e] =>
        match s with
        | TArray a | TReadonly (TArray a) => rec a e
        | TTuple fixed rest | TReadonly (TTuple fixed rest) =>
            elements_assignable fixed rest e
        | TRef name' [a] => String.eqb name' "ReadonlyArray" && rec a e
        | _ => false
        end
    | _ => false
    end
  else if String.eqb name "Partial" then
    objects_assignable s (TRef name args)
  else
    match args, s with
    | [], TRef name' [] =>
        String.eqb name name'
        && match find_decl D name' with Some _ => false | None => true end
    | _, _ => false
    end.

Definition key_of (u : ty) (a : string) : bool :=
  existsb (String.eqb a) (keys_of D u).

Definition target_step (s t : ty) : bool :=
  match t with
  | TUnknown => true
  | TUnion ts => existsb (fun u => rec s u) ts
  | TInter ts => forallb (fun u => rec s u) ts
  | TReadonly w => match s with TReadonly u => rec u w | _ => rec s w end
  | TString =>
      match s with
      | TString | TLit _ => true
      | TKeyof u => match keys_of D u with [] => false | _ => true end
      | _ => false
      end
  | TNumber => match s with TNumber => true | _ => false end
  | TBoolean => match s with TBoolean => true | _ => false end
  | TUndefined => match s with TUndefined => true | _ => false end
  | TVoid => match s with TVoid | TUndefined => true | _ => false end
  | TLit b => match s with TLit a => String.eqb a b | _ => false end
  | TVar y => match s with TVar x => String.eqb x y | _ => false end
  | TKeyof u =>
      match s with
      | TLit a => key_of u a
      | TKeyof u' =>
          match keys_of D u' with
          | [] => false
          | ks => forallb (key_of u) ks
          end
      | _ => false
      end
  | TArray b =>
      match s with
      | TArray a => rec a b
      | TTuple fixed rest => elements_assignable fixed rest b
      | _ => false
      end
  | TTuple fixed' rest' =>
      match s with
      | TTuple fixed rest => tuple_assignable fixed rest fixed' rest'
      | _ => false
      end
  | TFun tps' ps' ret' =>
      match s with
      | TFun tps ps ret => fun_assignable tps ps ret tps' ps' ret'
      | _ => false
      end
  | TObj _ => objects_assignable s t
  | TRef name args =>
      match find_decl D name with
      | Some (DInterface _ _ _ _) => objects_assignable s t
      | Some _ => false
      | None => ambient_assignable name args s
      end
  | TIndex _ _ | TMapped _ _ _ => false
  end.

(** A source union must fit member by member; a source intersection fits
    when one of its parts does. *)
Definition assign_step (s t : ty) : bool :=
  match t, s with
  | TUnknown, _ => true
  | _, TUnion ss => forallb (fun u => rec u t) ss
  | _, TInter ss => target_step s t || existsb (fun u => rec u t) ss
  | _, _ => target_step s t
  end.

End Assign.

Fixpoint assignable (n : nat) (D : list decl) (s t : ty) : bool :=
  match n with
  | 0 => false
  | S n' => assign_step D (assignable n' D) (expose D s) (expose D t)
  end.

Definition assignable_in (D : list decl) (s t : ty) : bool :=
  assignable (budget D) D s t.

(** ** Calling a construct signature

    [new g(a1, ..., an)] with arguments of types [args].  Each type
    parameter is inferred from the one parameter declared of that very
    type, and falls back on its bound when no parameter mentions it; the
    call then owes, for each bound, that the inferred type fits it, and for
    each other parameter that the argument fits the parameter's type. *)

Definition new_signature (D : list decl) (g : string)
    : option (list tparam * list param * ty) :=
  match find_var D g with
  | Some t =>
      match construct_sig D t with
      | Some (Member _ _ _ (TFun tps ps ret)) => Some (tps, ps, ret)
      | _ => None
      end
  | None => None
  end.

Definition is_param_var (x : string) (p : param) : bool :=
  match snd p with
  | TVar y => String.eqb x y
  | _ => false
  end.

(** The argument types found at the parameters declared of type [x]. *)
Definition candidates (x : string) (ps : list param) (args : list ty)
    : list ty :=
  map snd (filter (fun pa => is_param_var x (fst pa)) (combine ps args)).

Definition infer_one (ps : list param) (args : list ty) (p : tparam)
    : option (string * ty) :=
  match candidates (tp_name p) ps args with
  | [a] => Some (tp_name p, a)
  | [] =>
      Some (tp_name p,
            match snd (fst p) with Some b => b | None => TUnknown end)
  | _ => None
  end.

Fixpoint infer (tps : list tparam) (ps : list param) (args : list ty)
    : option env :=
  match tps with
  | [] => Some []
  | p :: tps' =>
      match infer_one ps args p, infer tps' ps args with
      | Some b, Some s => Some (b :: s)
      | _, _ => None
      end
  end.

Definition bound_obligations (s : env) (tps : list tparam)
    : list (ty * ty) :=
  flat_map (fun p : tparam =>
              match snd (fst p) with
              | Some b => [(subst s (TVar (tp_name p)), subst s b)]
              | None => []
              end) tps.

Definition argument_obligations (s : env) (tps : list tparam)
    (ps : list param) (args : list ty) : list (ty * ty) :=
  flat_map (fun pa : param * ty =>
              if existsb (fun p => is_param_var (tp_name p) (fst pa)) tps
              then []
              else [(snd pa, subst s (snd (fst pa)))])
           (combine ps args).

(** What the call owes, as pairs of a source and a target type. *)
Definition new_obligations (D : list decl) (g : string) (args : list ty)
    : option (list (ty * ty)) :=
  match new_signature D g with
  | Some (tps, ps, _) =>
      if has_rest ps || negb (Nat.eqb (length ps) (length args)) then None
      else
        match infer tps ps args with
        | Some s =>
            Some (bound_obligations s tps
                  ++ argument_obligations s tps ps args)%list
        | None => None
        end
  | None => None
  end.

(** What the call gives once its obligations are met. *)
Definition new_result (D : list decl) (g : string) (args : list ty)
    : option ty :=
  match new_signature D g with
  | Some (tps, ps, ret) =>
      match infer tps ps args with
      | Some s => Some (subst s ret)
      | None => None
      end
  | None => None
  end.

Definition new_call (D : list decl) (g : string) (args : list ty)
    : option ty :=
  match new_obligations D g args with
  | Some obl =>
      if forallb (fun o => assignable_in D (fst o) (snd o)) obl
      then new_result D g args
      else None
  | None => None
  end.


(** The parameters of the construct signature of [t]. *)
Definition construct_params (D : list decl) (t : ty)
    : option (list (string * ty)) :=
  match construct_sig D t with
  | Some (Member _ _ _ (TFun _ ps _)) =>
      Some (map (fun p : param => (snd (fst p), snd p)) ps)
  | _ => None
  end.

(** Options types to try the call on. *)
Definition options_without_css (fields_shape : ty) : ty :=
  TObj [ ("id", false, TString); ("title", false, TString);
         ("fields", false, fields_shape) ].

Definition one_text_field : ty :=
  TObj [ ("name", false, ref "fields.TextField") ].

(** ** The field-type vocabulary *)

(** The ten type names; the declarations spell unsigned-int as the key
    ['unsigned int']. *)
Definition field_type_vocabulary : list string :=
  [ "text"; "textarea"; "unsigned int"; "int"; "float"; "checkbox"; "radio";
    "select"; "hidden"; "button" ].

Definition same_names (l1 l2 : list string) : Prop :=
  forall k, In k l1 <-> In k l2.

(** In table [D], [TypeMap] has exactly the keys [vocab] and [Type] ranges
    over exactly them. *)
Definition type_vocabulary_is (D : list decl) (vocab : list string) : Prop :=
  same_names (keys_of D (ref "TypeMap")) vocab
  /\ same_names (lit_domain D (ref "Type")) vocab.

Definition source_tables : list (list decl) :=
  [IndexDts.decls; Part000.decls].

Ltac names_by_cases :=
  let k := fresh "k" in
  let H := fresh "H" in
  intro k; simpl; split; intro H;
  repeat (destruct H as [H|H]; [subst k; tauto|]); contradiction.

(** ** Discriminants of the field variants *)

Definition carries (D : list decl) (k : string) (variant : string) : bool :=
  match discriminant D variant with
  | Some s => String.eqb s k
  | None => false
  end.

(** ** The [Instance] contract *)

Definition has_kind (k : member_kind) (m : member) : bool :=
  match k, m_kind m with
  | PropertySig, PropertySig | MethodSig, MethodSig
  | ConstructSig, ConstructSig => true
  | _, _ => false
  end.

(** Operations are the method signatures; overloads count once. *)
Definition operations (D : list decl) (t : ty) : list string :=
  dedup (map m_name (filter (has_kind MethodSig) (members_of D t))).

(** A property holds a callback when its type is a function type, and data
    otherwise. *)
Definition is_callback (D : list decl) (m : member) : bool :=
  has_kind PropertySig m && is_function_type D (m_type m).

Definition is_data (D : list decl) (m : member) : bool :=
  has_kind PropertySig m && negb (is_function_type D (m_type m)).

Definition callbacks (D : list decl) (t : ty) : list string :=
  map m_name (filter (is_callback D) (members_of D t)).

Definition data_members (D : list decl) (t : ty) : list (string * ty) :=
  map (fun m => (m_name m, m_type m)) (filter (is_data D) (members_of D t)).

(** [Instance<F>], with its parameter left as it is declared. *)
Definition Instance_F : ty := TRef "Instance" [TVar "F"].

(** ** Label positions *)

(** The type names an expression mentions. *)
Fixpoint refs_in (t : ty) : list string :=
  let opt o := match o with Some u => refs_in u | None => [] end in
  match t with
  | TRef n args => n :: flat_map refs_in args
  | TUnion ts | TInter ts => flat_map refs_in ts
  | TArray u | TReadonly u | TKeyof u => refs_in u
  | TTuple fixed rest => (flat_map refs_in fixed ++ opt rest)%list
  | TFun tps ps ret =>
      (flat_map (fun p => (opt (snd (fst p)) ++ opt (snd p))%list) tps
       ++ flat_map (fun p => refs_in (snd p)) ps ++ refs_in ret)%list
  | TObj props => flat_map (fun p => refs_in (snd p)) props
  | TIndex u k => (refs_in u ++ refs_in k)%list
  | TMapped _ dom body => (refs_in dom ++ refs_in body)%list
  | _ => []
  end.

Definition tparam_refs (p : tparam) : list string :=
  (match snd (fst p) with Some u => refs_in u | None => [] end
   ++ match snd p with Some u => refs_in u | None => [] end)%list.

Definition decl_refs (d : decl) : list string :=
  match d with
  | DAlias _ tps body => (flat_map tparam_refs tps ++ refs_in body)%list
  | DInterface _ tps exts ms =>
      (flat_map tparam_refs tps ++ flat_map refs_in exts
       ++ flat_map (fun m => refs_in (m_type m)) ms)%list
  | DVar _ t => refs_in t
  end.

Definition referenced (D : list decl) (name : string) : bool :=
  existsb (fun d => existsb (String.eqb name) (decl_refs d)) D.

(** A field definition whose label position is the string [pos]. *)
Definition labelled_field (pos : string) : jsval :=
  VObj [("type", VStr "text"); ("label", VStr "Name"); ("labelPos", VStr pos)].

(** ** The [default] property *)

(** Member [k] of [t] is declared and not optional. *)
Definition requires (D : list decl) (t : ty) (k : string) : bool :=
  match find_member D t k with
  | Some m => negb (m_optional m)
  | None => false
  end.

Definition declares (D : list decl) (t : ty) (k : string) : bool :=
  match find_member D t k with Some _ => true | None => false end.

Definition text_field_without_default : jsval :=
  VObj [("type", VStr "text"); ("label", VStr "Name")].

Definition text_field_with_default : jsval :=
  VObj [("type", VStr "text"); ("label", VStr "Name"); ("default", VStr "")].

(** ** Lifecycle callbacks *)

Definition lifecycle_callbacks : list string :=
  ["onInit"; "onOpen"; "onSave"; "onClose"; "onReset"].

Definition optional_member (D : list decl) (t : ty) (k : string) : Prop :=
  exists m, find_member D t k = Some m
            /\ m_kind m = PropertySig /\ m_optional m = true.

Definition declared_property (D : list decl) (t : ty) (k : string) : Prop :=
  exists m, find_member D t k = Some m /\ m_kind m = PropertySig.

(** Registrable both ways: through [events] and by assignment. *)
Definition registrable_both_ways (D : list decl) (k : string) : Prop :=
  optional_member D (TRef "Events" [TVar "F"]) k
  /\ declared_property D Instance_F k.

(** ** [Instance.get] *)

(** The signatures under which [t] offers method [k]. *)
Definition signatures (D : list decl) (t : ty) (k : string) : list ty :=
  map m_type
      (filter (fun m => has_kind MethodSig m && String.eqb (m_name m) k)
              (members_of D t)).

(** The result type of calling a signature with explicit type arguments. *)
Definition call_result (sig : ty) (targs : list ty) : option ty :=
  match sig with
  | TFun tps _ ret => Some (subst (bind tps targs) ret)
  | _ => None
  end.

Definition get_signature : ty :=
  TFun [tp "T"] [arg "key" TString] (TUnion [TVar "T"; TUndefined]).

(** A store with no value under any key. *)
Definition empty_store_get (key : string) : jsval := VUndefined.

(** ** Option lists *)

Definition option_list_variants : list string :=
  ["fields.SelectField"; "fields.RadioField"].

Definition colour_select : jsval :=
  VObj [ ("type", VStr "checkbox"); ("label", VStr "Colour");
         ("options", VArr [VStr "red"; VStr "green"]) ].

(** ** Inclusion between object types *)

(** Member [ma] of one type answers for member [mb] of another: the same
    name, at least as required, and every value of its type is a value of
    the other's, found at most [c] levels deeper. *)
Definition member_covers (D : list decl) (c : nat) (ma mb : member) : Prop :=
  m_name ma = m_name mb
  /\ m_kind ma <> ConstructSig
  /\ m_kind mb <> ConstructSig
  /\ (m_optional ma = true -> m_optional mb = true)
  /\ (forall n x, has_type n D (m_type ma) x = true ->
                  has_type (n + c) D (m_type mb) x = true).

Definition all_covered (D : list decl) (c : nat) (msa msb : list member)
    : Prop :=
  forall mb, In mb msb -> exists ma, In ma msa /\ member_covers D c ma mb.

(** ** Sample field definitions *)

(** A select field written with the discriminant one would expect. *)
Definition select_typed_field (label : string) (options : list string)
    : jsval :=
  VObj [ ("type", VStr "select"); ("label", VStr label);
         ("options", VArr (map VStr options)) ].

Definition checkbox_field (label : string) (default : bool) : jsval :=
  VObj [ ("type", VStr "checkbox"); ("label", VStr label);
         ("default", VBool default) ].

(** ** Section headings *)

(** What a heading may be: a string or a DOM element. *)
Definition heading_like (v : jsval) : Prop :=
  (exists s, v = VStr s)
  \/ (exists chain, v = VDom chain /\ In "Element" chain).

(** What [section] may be: a heading, or a pair of a heading and a
    subheading, where the subheading may be [undefined]. *)
Definition section_like (v : jsval) : Prop :=
  heading_like v
  \/ (exists h sh,
        v = VArr [h; sh]
        /\ heading_like h /\ (heading_like sh \/ sh = VUndefined)).

(** ** Required members and sample options *)

Definition required_keys (D : list decl) (t : ty) : list string :=
  filter (requires D t) (keys_of D t).

(** Options that give the four plain members and nothing else. *)
Definition plain_options (id title css : string)
    (fields : list (string * jsval)) : jsval :=
  VObj [ ("id", VStr id); ("title", VStr title); ("fields", VObj fields);
         ("css", VStr css) ].

(** Every entry of a fields record is a definition of some variant. *)
Definition variant_valued (D : list decl) (fields : list (string * jsval))
    : Prop :=
  forall kv, In kv fields ->
    exists variant,
      In variant (field_variants D) /\ conforms D (ref variant) (snd kv).

Definition two_fields : list (string * jsval) :=
  [ ("enabled", checkbox_field "Enabled" true); ("colour", colour_select) ].

(** ** Sample definitions for comparing the two files *)

Definition float_field (label : string) (default : jsval) : jsval :=
  VObj [ ("type", VStr "float"); ("label", VStr label); ("default", default) ].

Definition radio_field (label default : string) (options : list string)
    : jsval :=
  VObj [ ("type", VStr "radio"); ("label", VStr label);
         ("default", VStr default); ("options", VArr (map VStr options)) ].

(** The values of [t] in table [D1] are values of [t] in table [D2]. *)
Definition type_inside (D1 D2 : list decl) (t : ty) : Prop :=
  forall v, conforms D1 t v -> conforms D2 t v.

(** Options of the second file's constructor, with a frame to draw in. *)
Definition framed_options (id title css : string) : jsval :=
  VObj [ ("id", VStr id); ("title", VStr title); ("fields", VObj []);
         ("css", VStr css);
         ("frame", VDom ["HTMLIFrameElement"; "HTMLElement"; "Element"]) ].

Definition text_field_with (label default : string) : jsval :=
  VObj [ ("type", VStr "text"); ("label", VStr label);
         ("default", VStr default) ].

(** ** Well-formed tables *)

(** Names the declarations take from the TypeScript library. *)
Definition ambient_names : list string :=
  ["Record"; "ReadonlyArray"; "Partial"; "ElementTagNameMap"] ++ dom_classes.

Definition resolves (D : list decl) (name : string) : bool :=
  match find_decl D name with
  | Some _ => true
  | None => existsb (String.eqb name) ambient_names
  end.

Definition without (xs : list string) (l : list string) : list string :=
  filter (fun y => negb (existsb (String.eqb y) xs)) l.

(** The type parameters an expression uses and does not bind itself; the
    parameters of a signature scope over its constraints as well. *)
Fixpoint free_vars (t : ty) : list string :=
  let opt o := match o with Some u => free_vars u | None => [] end in
  match t with
  | TVar x => [x]
  | TRef _ args => flat_map free_vars args
  | TUnion ts | TInter ts => flat_map free_vars ts
  | TArray u | TReadonly u | TKeyof u => free_vars u
  | TTuple fixed rest => (flat_map free_vars fixed ++ opt rest)%list
  | TFun tps ps ret =>
      without (map tp_name tps)
        (flat_map (fun p => (opt (snd (fst p)) ++ opt (snd p))%list) tps
         ++ flat_map (fun p => free_vars (snd p)) ps ++ free_vars ret)%list
  | TObj props => flat_map (fun p => free_vars (snd p)) props
  | TIndex u k => (free_vars u ++ free_vars k)%list
  | TMapped k dom body => (free_vars dom ++ without [k] (free_vars body))%list
  | _ => []
  end.

Definition tparam_vars (p : tparam) : list string :=
  (match snd (fst p) with Some u => free_vars u | None => [] end
   ++ match snd p with Some u => free_vars u | None => [] end)%list.

(** The type parameters a declaration uses without declaring them. *)
Definition unbound_vars (d : decl) : list string :=
  match d with
  | DAlias _ tps body =>
      without (map tp_name tps) (flat_map tparam_vars tps ++ free_vars body)
  | DInterface _ tps exts ms =>
      without (map tp_name tps)
        (flat_map tparam_vars tps ++ flat_map free_vars exts
         ++ flat_map (fun m => free_vars (m_type m)) ms)
  | DVar _ t => free_vars t
  end.

Definition type_names (D : list decl) : list string :=
  map decl_name (filter is_type_decl D).

(** No type is declared twice, every name mentioned is declared or comes
    from the library, and no type parameter is used out of scope. *)
Definition well_formed (D : list decl) : bool :=
  Nat.eqb (length (dedup (type_names D))) (length (type_names D))
  && forallb (resolves D) (flat_map decl_refs D)
  && forallb (fun d => match unbound_vars d with [] => true | _ => false end) D.

(** ** Callback slots *)




(** * Properties of the checker *)

(** ** A larger budget never loses a value *)

Section Monotone.

Variable D : list decl.
Variables r1 r2 : ty -> jsval -> bool.
Hypothesis r12 : forall t v, r1 t v = true -> r2 t v = true.

Lemma forallb_weaken {A} (f g : A -> bool) (l : list A) :
  (forall x, f x = true -> g x = true) ->
  forallb f l = true -> forallb g l = true.
Proof.
  intros fg H. rewrite forallb_forall in *. auto.
Qed.

Lemma existsb_weaken {A} (f g : A -> bool) (l : list A) :
  (forall x, f x = true -> g x = true) ->
  existsb f l = true -> existsb g l = true.
Proof.
  intros fg H. rewrite existsb_exists in *.
  destruct H as [x [Hx Hf]]. exists x. auto.
Qed.

Lemma prop_ok_mono opt t o :
  prop_ok r1 opt t o = true -> prop_ok r2 opt t o = true.
Proof.
  destruct o as [x|]; simpl; auto.
  rewrite !orb_true_iff. intros [H|H]; auto.
Qed.

Lemma tuple_ok_mono fixed rest l :
  tuple_ok r1 fixed rest l = true -> tuple_ok r2 fixed rest l = true.
Proof.
  revert l. induction fixed as [|t fixed IH]; intros l; simpl.
  - destruct rest as [r|]; auto. apply forallb_weaken. auto.
  - destruct l as [|x l]; auto.
    rewrite !andb_true_iff. intros [H1 H2]. auto.
Qed.

Lemma members_ok_mono ms v :
  members_ok r1 ms v = true -> members_ok r2 ms v = true.
Proof.
  destruct v; simpl; auto.
  rewrite !andb_true_iff. intros [A B]. split; [exact A|].
  revert B. apply forallb_weaken. intros m.
  destruct (m_kind m); auto using prop_ok_mono.
Qed.

Lemma ambient_ok_mono name args v :
  ambient_ok D r1 name args v = true -> ambient_ok D r2 name args v = true.
Proof.
  unfold ambient_ok.
  destruct (String.eqb name "Record").
  { destruct args as [|[] [|tv [|]]]; auto.
    destruct v; auto. apply forallb_weaken. auto. }
  destruct (String.eqb name "ReadonlyArray").
  { destruct args as [|e [|]]; auto.
    destruct v; auto. apply forallb_weaken. auto. }
  destruct (String.eqb name "Partial").
  { destruct v; auto. apply members_ok_mono. }
  auto.
Qed.

Lemma check_step_mono t v :
  check_step D r1 t v = true -> check_step D r2 t v = true.
Proof.
  destruct t; simpl; auto.
  - destruct (find_decl D name) as [[| |]|];
      auto using members_ok_mono, ambient_ok_mono.
  - apply existsb_weaken. auto.
  - apply forallb_weaken. auto.
  - destruct v; auto. apply forallb_weaken. auto.
  - destruct v; auto. apply tuple_ok_mono.
  - apply members_ok_mono.
  - destruct (index_type D t1 t2); auto.
  - apply members_ok_mono.
Qed.

End Monotone.

Lemma has_type_S n D t v :
  has_type n D t v = true -> has_type (S n) D t v = true.
Proof.
  revert t v. induction n as [|n IH]; intros t v H.
  - discriminate.
  - simpl in H. change (check_step D (has_type (S n) D) t v = true).
    eapply check_step_mono; [|exact H]. exact IH.
Qed.

Lemma has_type_le n m D t v :
  n <= m -> has_type n D t v = true -> has_type m D t v = true.
Proof.
  induction 1; auto using has_type_S.
Qed.

(** Two conformance facts can always be brought to one budget. *)
Lemma conforms_both D t1 v1 t2 v2 :
  conforms D t1 v1 -> conforms D t2 v2 ->
  exists n, has_type n D t1 v1 = true /\ has_type n D t2 v2 = true.
Proof.
  intros [n1 H1] [n2 H2]. exists (Nat.max n1 n2). split.
  - apply has_type_le with n1; [lia | assumption].
  - apply has_type_le with n2; [lia | assumption].
Qed.

(** ** Reading a successful check backwards *)

Lemma has_type_interface n D name args v iname tps exts ms :
  find_decl D name = Some (DInterface iname tps exts ms) ->
  has_type (S n) D (TRef name args) v
  = members_ok (has_type n D) (members_of D (TRef name args)) v.
Proof.
  intros H. simpl. rewrite H. reflexivity.
Qed.

Lemma has_type_alias n D name args v aname tps body :
  find_decl D name = Some (DAlias aname tps body) ->
  has_type (S n) D (TRef name args) v
  = has_type n D (subst (bind tps args) body) v.
Proof.
  intros H. simpl. rewrite H. reflexivity.
Qed.

Lemma members_ok_member rec ms fs m :
  members_ok rec ms (VObj fs) = true ->
  In m ms ->
  m_kind m <> ConstructSig ->
  prop_ok rec (m_optional m) (m_type m) (obj_get (m_name m) fs) = true.
Proof.
  simpl. intros H Hin Hk. apply andb_true_iff in H. destruct H as [_ H].
  rewrite forallb_forall in H.
  specialize (H m Hin). destruct (m_kind m); congruence.
Qed.

(** A required member forces an object that has it. *)
Lemma members_ok_required rec ms v m :
  members_ok rec ms v = true ->
  In m ms ->
  m_kind m <> ConstructSig ->
  m_optional m = false ->
  exists fs x,
    v = VObj fs /\ obj_get (m_name m) fs = Some x /\ rec (m_type m) x = true.
Proof.
  intros H Hin Hk Hreq. destruct v; try (simpl in H; discriminate).
  - pose proof (members_ok_member _ _ _ _ H Hin Hk) as P.
    rewrite Hreq in P. unfold prop_ok in P.
    destruct (obj_get (m_name m) props) as [x|] eqn:E; [|discriminate].
    exists props, x. rewrite orb_false_r in P. auto.
  - simpl in H. apply andb_true_iff in H. destruct H as [_ H].
    rewrite forallb_forall in H. specialize (H m Hin).
    rewrite Hreq in H. destruct (m_kind m); congruence.
Qed.

Lemma has_type_string n D v :
  has_type n D TString v = true -> exists s, v = VStr s.
Proof.
  destruct n; [discriminate|]. destruct v; try discriminate. eauto.
Qed.

Lemma has_type_strings n D l :
  forallb (has_type n D TString) l = true -> exists ss, l = map VStr ss.
Proof.
  induction l as [|x l IH]; simpl.
  - exists []. reflexivity.
  - rewrite andb_true_iff. intros [Hx Hl].
    destruct (has_type_string _ _ _ Hx) as [s ->].
    destruct (IH Hl) as [ss ->]. exists (s :: ss). reflexivity.
Qed.

Lemma has_type_keyof n D u v :
  has_type n D (TKeyof u) v = true ->
  exists k, v = VStr k /\ In k (keys_of D u).
Proof.
  destruct n; [discriminate|]. simpl. destruct v; try discriminate.
  rewrite existsb_exists. intros [k [Hin Heq]].
  apply String.eqb_eq in Heq. subst. eauto.
Qed.

Lemma keyof_has_type D u k :
  In k (keys_of D u) -> has_type 1 D (TKeyof u) (VStr k) = true.
Proof.
  intros Hin. simpl. rewrite existsb_exists. exists k.
  split; [assumption | apply String.eqb_refl].
Qed.

(** [undefined] is inside every union that lists it. *)
Lemma undefined_in_union D ts :
  In TUndefined ts -> has_type 2 D (TUnion ts) VUndefined = true.
Proof.
  intros Hin. simpl. rewrite existsb_exists. exists TUndefined. auto.
Qed.

(** * The constructor and [Instance.fields] *)

Lemma new_then_read_fields (C : ty) :
  new_then_read IndexDts.decls "GM_configInit" C "fields"
  = Some (TIndex C (TLit "fields")).
Proof.
  vm_compute. reflexivity.
Qed.

Lemma members_of_literal (props : list (string * bool * ty)) :
  members_of IndexDts.decls (TObj props) = map obj_member props.
Proof.
  reflexivity.
Qed.

(** When the options type is an object literal type, what comes back is
    the very type written for its [fields] property. *)
Lemma literal_fields_round_trip (props : list (string * bool * ty)) (tf : ty) :
  member_type IndexDts.decls (TObj props) "fields" = Some tf ->
  option_map (eval_index IndexDts.decls)
    (new_then_read IndexDts.decls "GM_configInit" (TObj props) "fields")
  = Some tf.
Proof.
  intros H. rewrite new_then_read_fields. simpl.
  unfold index_type. rewrite H. reflexivity.
Qed.

Example literal_fields_round_trip_at_shape (shape : ty) :
  option_map (eval_index IndexDts.decls)
    (new_then_read IndexDts.decls "GM_configInit" (literal_options shape)
       "fields")
  = Some shape.
Proof.
  apply literal_fields_round_trip.
  unfold member_type, find_member, literal_options.
  rewrite members_of_literal. reflexivity.
Qed.








(** Options without [css] do not fit the bound, and the call gives
    nothing; neither does a call without argument. *)
Example new_call_refusals :
  new_call IndexDts.decls "GM_configInit" [options_without_css one_text_field]
  = None
  /\ new_call IndexDts.decls "GM_configInit" [] = None.
Proof. split; vm_compute; reflexivity. Qed.

(** With the declared options type itself the fields shape is
    [ConfigFields], which is also what the global [GM_config] stores. *)
Lemma fields_of_declared_options :
  index_type IndexDts.decls (ref "InitOptions") (TLit "fields")
    = Some (ref "ConfigFields")
  /\ (exists t, find_var IndexDts.decls "GM_config" = Some t
        /\ member_type IndexDts.decls t "fields" = Some (ref "ConfigFields")).
Proof.
  split; [reflexivity|]. exists (ref "Instance"). split; reflexivity.
Qed.

(** * The field-type vocabulary *)

Lemma index_keys :
  keys_of IndexDts.decls (ref "TypeMap")
  = [ "text"; "textarea"; "unsigned int"; "int"; "float"; "checkbox"; "radio";
      "select"; "button"; "hidden" ].
Proof. vm_compute. reflexivity. Qed.

Lemma part000_keys :
  keys_of Part000.decls (ref "TypeMap")
  = [ "text"; "textarea"; "unsigned int"; "float"; "checkbox"; "radio";
      "select"; "button"; "hidden" ].
Proof. vm_compute. reflexivity. Qed.

Lemma type_ranges_over_keys D :
  In D source_tables ->
  lit_domain D (ref "Type") = keys_of D (ref "TypeMap").
Proof.
  intros [<-|[<-|[]]]; vm_compute; reflexivity.
Qed.

Lemma type_is_keyof D :
  In D source_tables ->
  find_decl D "Type" = Some (DAlias "Type" [] (TKeyof (ref "TypeMap"))).
Proof.
  intros [<-|[<-|[]]]; vm_compute; reflexivity.
Qed.

(** The values of [Type] are the key strings, and nothing else. *)
Lemma type_values D v :
  In D source_tables ->
  conforms D (ref "Type") v <->
  exists k, v = VStr k /\ In k (keys_of D (ref "TypeMap")).
Proof.
  intros HD. pose proof (type_is_keyof D HD) as A. split.
  - intros [n H]. destruct n; [discriminate|].
    unfold ref in H. rewrite (has_type_alias _ _ _ _ _ _ _ _ A) in H.
    now apply has_type_keyof in H.
  - intros [k [-> Hin]]. exists 2.
    unfold ref at 1. rewrite (has_type_alias _ _ _ _ _ _ _ _ A).
    now apply keyof_has_type.
Qed.

(** C2, as stated, fails: the second declaration file has no [int] key. *)
Lemma C2_part000_lacks_int :
  ~ (forall D, In D source_tables -> type_vocabulary_is D field_type_vocabulary).
Proof.
  intros H. destruct (H Part000.decls) as [K _]; [simpl; auto|].
  assert (Hin : In "int" (keys_of Part000.decls (ref "TypeMap"))).
  { apply K. simpl. auto. }
  rewrite part000_keys in Hin. simpl in Hin.
  repeat (destruct Hin as [Hin|Hin]; [discriminate|]). exact Hin.
Qed.

(** C2, amended.  In [index.d.ts] the keys of [TypeMap] are exactly the ten
    type names, each once, and [Type] ranges over exactly them: its values
    are the ten names as strings.  In the second declaration file [TypeMap]
    has the nine keys other than [int], and its [Type] ranges over those
    nine. *)
Theorem C2_type_vocabulary :
  type_vocabulary_is IndexDts.decls field_type_vocabulary
  /\ NoDup (keys_of IndexDts.decls (ref "TypeMap"))
  /\ length (keys_of IndexDts.decls (ref "TypeMap")) = 10
  /\ (forall v, conforms IndexDts.decls (ref "Type") v <->
                exists k, v = VStr k /\ In k field_type_vocabulary)
  /\ type_vocabulary_is Part000.decls
       (filter (fun k => negb (String.eqb k "int")) field_type_vocabulary)
  /\ length (keys_of Part000.decls (ref "TypeMap")) = 9.
Proof.
  assert (K : same_names (keys_of IndexDts.decls (ref "TypeMap"))
                field_type_vocabulary).
  { rewrite index_keys. unfold field_type_vocabulary. names_by_cases. }
  repeat apply conj.
  - exact K.
  - rewrite type_ranges_over_keys by (simpl; auto). exact K.
  - rewrite index_keys.
    repeat (constructor; [simpl; intros H;
      repeat (destruct H as [H|H]; [discriminate|]); exact H|]).
    constructor.
  - reflexivity.
  - intros v.
    pose proof (type_values IndexDts.decls v (or_introl eq_refl)) as [V1 V2].
    split.
    + intros Hc. destruct (V1 Hc) as [k [Hk Hin]].
      exists k. split; [exact Hk | exact (proj1 (K k) Hin)].
    + intros [k [Hk Hin]]. apply V2.
      exists k. split; [exact Hk | exact (proj2 (K k) Hin)].
  - rewrite part000_keys. names_by_cases.
  - rewrite type_ranges_over_keys, part000_keys by (simpl; auto).
    names_by_cases.
  - reflexivity.
Qed.

(** * Discriminants of the field variants *)

Lemma index_field_variants :
  field_variants IndexDts.decls
  = [ "fields.TextField"; "fields.TextAreaField"; "fields.UIntField";
      "fields.IntField"; "fields.FloatField"; "fields.CheckboxField";
      "fields.SelectField"; "fields.RadioField"; "fields.HiddenField";
      "fields.ButtonField" ].
Proof. vm_compute. reflexivity. Qed.

(** C3.  Every variant interface declared in the [fields] namespace of
    [index.d.ts] assigns to [type] a string literal that is a key of
    [TypeMap]. *)
Theorem C3_discriminant_is_key (variant : string) :
  In variant (field_variants IndexDts.decls) ->
  exists s,
    discriminant IndexDts.decls variant = Some s
    /\ is_key IndexDts.decls (ref "TypeMap") s = true.
Proof.
  rewrite index_field_variants. simpl. intros H.
  repeat (destruct H as [<-|H]; [eexists; split; reflexivity|]).
  contradiction.
Qed.

(** C3 at [IntField]. *)
Lemma C3_discriminant_is_key_witness :
  In "fields.IntField" (field_variants IndexDts.decls)
  /\ exists s,
       discriminant IndexDts.decls "fields.IntField" = Some s
       /\ is_key IndexDts.decls (ref "TypeMap") s = true.
Proof.
  assert (H : In "fields.IntField" (field_variants IndexDts.decls)).
  { rewrite index_field_variants. simpl. tauto. }
  split; [exact H | exact (C3_discriminant_is_key "fields.IntField" H)].
Defined.

(** The same holds in the second file, where the variants are
    intersections with [Field<'...'>] and the discriminant comes from the
    type argument. *)
Lemma part000_discriminant_is_key (variant : string) :
  In variant (field_variants Part000.decls) ->
  exists s,
    discriminant Part000.decls variant = Some s
    /\ is_key Part000.decls (ref "TypeMap") s = true.
Proof.
  simpl. intros H.
  repeat (destruct H as [<-|H]; [eexists; split; reflexivity|]).
  contradiction.
Qed.

(** C4.  [SelectField] is declared with [type: 'checkbox'], the literal
    [CheckboxField] declares as well; ['select'] is a key of [TypeMap], and
    no declared variant carries it. *)
Theorem C4_select_declared_as_checkbox :
  discriminant IndexDts.decls "fields.SelectField" = Some "checkbox"
  /\ discriminant IndexDts.decls "fields.CheckboxField"
     = discriminant IndexDts.decls "fields.SelectField"
  /\ is_key IndexDts.decls (ref "TypeMap") "select" = true
  /\ filter (carries IndexDts.decls "select") (field_variants IndexDts.decls)
     = []
  /\ filter (carries IndexDts.decls "checkbox") (field_variants IndexDts.decls)
     = ["fields.CheckboxField"; "fields.SelectField"].
Proof.
  repeat apply conj; vm_compute; reflexivity.
Qed.

(** * The [Instance] contract *)

(** C5.  [Instance] declares exactly the twelve operations init, open,
    close, save, read, write, reset, get, set, create, center, remove, and
    exactly the four data members id, title, css (each a string) and
    fields (of type [F]).  Its remaining members are the four callback
    properties onOpen, onSave, onClose, onReset; it has no construct
    signature. *)
Theorem C5_instance_contract :
  same_names (operations IndexDts.decls Instance_F)
    [ "init"; "open"; "close"; "save"; "read"; "write"; "reset"; "get";
      "set"; "create"; "center"; "remove" ]
  /\ length (operations IndexDts.decls Instance_F) = 12
  /\ same_names (map fst (data_members IndexDts.decls Instance_F))
       ["id"; "title"; "css"; "fields"]
  /\ data_members IndexDts.decls Instance_F
     = [("id", TString); ("fields", TVar "F"); ("title", TString);
        ("css", TString)]
  /\ callbacks IndexDts.decls Instance_F
     = ["onOpen"; "onSave"; "onClose"; "onReset"]
  /\ filter (has_kind ConstructSig) (members_of IndexDts.decls Instance_F) = [].
Proof.
  assert (Ops : operations IndexDts.decls Instance_F
                = [ "init"; "open"; "set"; "save"; "close"; "get"; "write";
                    "read"; "reset"; "create"; "center"; "remove" ])
    by (vm_compute; reflexivity).
  assert (Data : data_members IndexDts.decls Instance_F
                 = [("id", TString); ("fields", TVar "F"); ("title", TString);
                    ("css", TString)])
    by (vm_compute; reflexivity).
  repeat apply conj.
  - rewrite Ops. names_by_cases.
  - rewrite Ops. reflexivity.
  - rewrite Data. names_by_cases.
  - exact Data.
  - vm_compute; reflexivity.
  - vm_compute; reflexivity.
Qed.

(** * Label positions *)

(** C6 fails on the declarations.  [labelPos] is declared [string] in both
    files, so a field with any string there is inside [Field]; the alias
    [LabelPosition] lists the four positions but no declaration refers to
    it.  ["diagonal"] is not one of the four, and is accepted. *)
Theorem C6_labelPos_is_any_string :
  (forall D, In D source_tables ->
     member_type D (ref "Field") "labelPos" = Some TString)
  /\ (forall pos, has_type 4 IndexDts.decls (ref "Field") (labelled_field pos)
                  = true)
  /\ lit_domain IndexDts.decls (ref "LabelPosition")
     = ["above"; "below"; "right"; "left"]
  /\ (forall n, has_type n IndexDts.decls (ref "LabelPosition") (VStr "diagonal")
                = false)
  /\ referenced IndexDts.decls "LabelPosition" = false
  /\ referenced Part000.decls "LabelPosition" = false.
Proof.
  repeat apply conj.
  - intros D [<-|[<-|[]]]; vm_compute; reflexivity.
  - intros pos. vm_compute. reflexivity.
  - vm_compute; reflexivity.
  - intros [|[|[|n]]]; vm_compute; reflexivity.
  - vm_compute; reflexivity.
  - vm_compute; reflexivity.
Qed.

Example referenced_sanity :
  referenced IndexDts.decls "LabelSection" = true
  /\ referenced IndexDts.decls "TypeMap" = true.
Proof. split; vm_compute; reflexivity. Qed.

(** * The [default] property *)

(** Whoever requires a member rejects every object without it. *)
Lemma required_member_missing D n name args fs k iname tps exts ms :
  find_decl D name = Some (DInterface iname tps exts ms) ->
  requires D (TRef name args) k = true ->
  construct_sig D (TRef name args) = None ->
  obj_get k fs = None ->
  has_type n D (TRef name args) (VObj fs) = false.
Proof.
  intros Hd Hreq Hc Hget. destruct n; [reflexivity|].
  rewrite (has_type_interface _ _ _ _ _ _ _ _ _ Hd).
  apply not_true_is_false. intros H.
  unfold requires, find_member in Hreq.
  destruct (find _ _) as [m|] eqn:F; [|discriminate].
  apply find_some in F. destruct F as [Hin Hname].
  apply String.eqb_eq in Hname.
  assert (Hk : m_kind m <> ConstructSig).
  { intros K. unfold construct_sig in Hc.
    apply (find_none _ _ Hc) in Hin. rewrite K in Hin. discriminate. }
  pose proof (members_ok_member _ _ _ _ H Hin Hk) as P.
  rewrite Hname, Hget in P. simpl in P.
  apply negb_true_iff in Hreq. congruence.
Qed.

(** C7 fails on the declarations.  Six of the ten variants declare
    [default] without the question mark; only [SelectField] and
    [RadioField] declare it optional, and [HiddenField] and [ButtonField]
    do not declare it.  A text field without [default] is outside
    [TextField] at every budget; adding [default] puts it inside. *)
Theorem C7_default_is_required_in_six_variants :
  filter (fun variant => requires IndexDts.decls (ref variant) "default")
         (field_variants IndexDts.decls)
  = [ "fields.TextField"; "fields.TextAreaField"; "fields.UIntField";
      "fields.IntField"; "fields.FloatField"; "fields.CheckboxField" ]
  /\ filter (fun variant => declares IndexDts.decls (ref variant) "default"
                            && negb (requires IndexDts.decls (ref variant)
                                       "default"))
            (field_variants IndexDts.decls)
     = [ "fields.SelectField"; "fields.RadioField" ]
  /\ (forall n, has_type n IndexDts.decls (ref "fields.TextField")
                  text_field_without_default = false)
  /\ has_type 4 IndexDts.decls (ref "fields.TextField")
       text_field_with_default = true.
Proof.
  repeat apply conj.
  - vm_compute; reflexivity.
  - vm_compute; reflexivity.
  - intros n. unfold ref, text_field_without_default.
    eapply required_member_missing with (k := "default");
      vm_compute; reflexivity.
  - vm_compute; reflexivity.
Qed.

(** * Lifecycle callbacks *)

Lemma optional_member_check D t k :
  match find_member D t k with
  | Some m => has_kind PropertySig m && m_optional m
  | None => false
  end = true ->
  optional_member D t k.
Proof.
  unfold optional_member, has_kind.
  destruct (find_member D t k) as [m|]; [|discriminate].
  intros H. apply andb_true_iff in H. destruct H as [Hk Ho].
  exists m. destruct (m_kind m); try discriminate. auto.
Qed.

Lemma declared_property_check D t k :
  match find_member D t k with
  | Some m => has_kind PropertySig m
  | None => false
  end = true ->
  declared_property D t k.
Proof.
  unfold declared_property, has_kind.
  destruct (find_member D t k) as [m|]; [|discriminate].
  intros H. exists m. destruct (m_kind m); try discriminate. auto.
Qed.

Lemma events_callback_types k :
  In k lifecycle_callbacks ->
  exists t, member_type IndexDts.decls (TRef "Events" [TVar "F"]) k = Some t
            /\ is_function_type IndexDts.decls t = true.
Proof.
  simpl. intros H.
  repeat (destruct H as [<-|H];
          [eexists; split; [vm_compute; reflexivity | vm_compute; reflexivity]|]).
  contradiction.
Qed.

(** C8, as stated, fails: [Instance] declares no [onInit]. *)
Lemma C8_instance_has_no_onInit :
  ~ (forall k, In k lifecycle_callbacks ->
       registrable_both_ways IndexDts.decls k).
Proof.
  intros H. destruct (H "onInit") as [_ [m [Hm _]]]; [simpl; auto|].
  vm_compute in Hm. discriminate.
Qed.

(** C8, amended.  Each of the five callbacks is an optional member of
    [Events], of a function type, and [InitOptions.events] is an optional
    [Events]; each of onOpen, onSave, onClose, onReset is moreover a
    declared property of [Instance] with the type [Events] gives it.
    [Instance] has no member named onInit. *)
Theorem C8_callback_registration (k : string) :
  In k lifecycle_callbacks ->
  optional_member IndexDts.decls (TRef "Events" [TVar "F"]) k
  /\ (exists t, member_type IndexDts.decls (TRef "Events" [TVar "F"]) k = Some t
        /\ is_function_type IndexDts.decls t = true)
  /\ optional_member IndexDts.decls (ref "InitOptions") "events"
  /\ member_type IndexDts.decls (ref "InitOptions") "events"
     = Some (TRef "Events" [TIndex (ref "InitOptions") (TLit "fields")])
  /\ (k <> "onInit" ->
      declared_property IndexDts.decls Instance_F k
      /\ member_type IndexDts.decls Instance_F k
         = member_type IndexDts.decls (TRef "Events" [TVar "F"]) k)
  /\ find_member IndexDts.decls Instance_F "onInit" = None.
Proof.
  intros H. repeat apply conj.
  - apply optional_member_check. simpl in H.
    repeat (destruct H as [<-|H]; [vm_compute; reflexivity|]). contradiction.
  - now apply events_callback_types.
  - apply optional_member_check. vm_compute. reflexivity.
  - vm_compute. reflexivity.
  - simpl in H. destruct H as [<-|H]; [congruence|]. intros _.
    repeat (destruct H as [<-|H];
            [split; [apply declared_property_check|];
             vm_compute; reflexivity|]).
    contradiction.
  - vm_compute. reflexivity.
Qed.

(** C8 at [onSave]. *)
Lemma C8_callback_registration_witness :
  In "onSave" lifecycle_callbacks
  /\ declared_property IndexDts.decls Instance_F "onSave".
Proof.
  assert (H : In "onSave" lifecycle_callbacks) by (simpl; tauto).
  split; [exact H|].
  destruct (C8_callback_registration "onSave" H) as [_ [_ [_ [_ [P _]]]]].
  apply P. discriminate.
Defined.

(** * [Instance.get] *)

(** C9.  [get] has the single signature [get<T>(key: string): T | undefined];
    for every [T] the result type of [get<T>] is [T | undefined], and for
    every key [undefined] is inside it: the declaration is met by a store
    that has no value under any key, so no caller may count on one. *)
Theorem C9_get_may_return_undefined (T : ty) (key : string) :
  signatures IndexDts.decls Instance_F "get" = [get_signature]
  /\ call_result get_signature [T] = Some (TUnion [T; TUndefined])
  /\ conforms IndexDts.decls (TUnion [T; TUndefined]) (empty_store_get key).
Proof.
  repeat apply conj.
  - vm_compute; reflexivity.
  - reflexivity.
  - exists 2. apply undefined_in_union. simpl. auto.
Qed.

(** * Option lists *)

Lemma has_type_nonempty_strings n D x :
  has_type n D IndexDts.fields.nonempty_strings x = true ->
  exists o os, x = VArr (VStr o :: map VStr os).
Proof.
  unfold IndexDts.fields.nonempty_strings.
  destruct n as [|[|n]]; try discriminate.
  simpl. destruct x as [| | | |l| | |]; try discriminate.
  destruct l as [|y l]; [discriminate|].
  rewrite andb_true_iff. intros [Hy Hl].
  destruct (has_type_string _ _ _ Hy) as [o ->].
  destruct (has_type_strings _ _ _ Hl) as [os ->].
  eauto.
Qed.

Lemma options_member variant :
  In variant option_list_variants ->
  exists iname tps exts ms,
    find_decl IndexDts.decls variant = Some (DInterface iname tps exts ms)
    /\ In (prop "options" IndexDts.fields.nonempty_strings)
          (members_of IndexDts.decls (ref variant)).
Proof.
  intros [<-|[<-|[]]]; do 4 eexists; (split; [vm_compute; reflexivity|]);
    vm_compute; auto.
Qed.

Lemma options_of_checked n variant v :
  In variant option_list_variants ->
  has_type n IndexDts.decls (ref variant) v = true ->
  exists fs o os,
    v = VObj fs /\ obj_get "options" fs = Some (VArr (VStr o :: map VStr os)).
Proof.
  intros Hv H.
  destruct (options_member variant Hv) as (iname & tps & exts & ms & Hd & Hin).
  destruct n; [discriminate|].
  unfold ref in H. rewrite (has_type_interface _ _ _ _ _ _ _ _ _ Hd) in H.
  destruct (members_ok_required _ _ _ _ H Hin) as (fs & x & -> & Hget & Hx);
    [discriminate | reflexivity |].
  apply has_type_nonempty_strings in Hx. destruct Hx as (o & os & ->).
  exists fs, o, os. auto.
Qed.

(** C10.  Every value inside [SelectField] or [RadioField] is an object
    whose [options] is an array of strings with at least one element; the
    declared type of [options] is [readonly [string, ...string[]]]. *)
Theorem C10_options_nonempty (variant : string) (v : jsval) :
  In variant option_list_variants ->
  conforms IndexDts.decls (ref variant) v ->
  member_type IndexDts.decls (ref variant) "options"
    = Some (TReadonly (TTuple [TString] (Some TString)))
  /\ exists fs o os,
       v = VObj fs /\ obj_get "options" fs = Some (VArr (VStr o :: map VStr os)).
Proof.
  intros Hv [n H]. split.
  - destruct Hv as [<-|[<-|[]]]; vm_compute; reflexivity.
  - eauto using options_of_checked.
Qed.

(** C10 at a select field with two options. *)
Lemma C10_options_nonempty_witness :
  In "fields.SelectField" option_list_variants
  /\ conforms IndexDts.decls (ref "fields.SelectField") colour_select
  /\ exists fs o os,
       colour_select = VObj fs
       /\ obj_get "options" fs = Some (VArr (VStr o :: map VStr os)).
Proof.
  assert (Hv : In "fields.SelectField" option_list_variants)
    by (simpl; tauto).
  assert (Hc : conforms IndexDts.decls (ref "fields.SelectField") colour_select)
    by (exists 5; vm_compute; reflexivity).
  split; [exact Hv|]. split; [exact Hc|].
  exact (proj2 (C10_options_nonempty "fields.SelectField" colour_select Hv Hc)).
Defined.

(** An empty option list puts a select field outside the type. *)
Example empty_options_rejected n :
  has_type n IndexDts.decls (ref "fields.SelectField")
    (VObj [ ("type", VStr "checkbox"); ("label", VStr "Colour");
            ("options", VArr []) ]) = false.
Proof.
  apply not_true_is_false. intros H.
  apply options_of_checked in H; [|simpl; tauto].
  destruct H as (fs & o & os & E & Hget).
  injection E as <-. vm_compute in Hget. discriminate.
Qed.

(** * Inclusions between the declared types *)

(** ** The equations of the check *)

Lemma has_type_union n D ts v :
  has_type (S n) D (TUnion ts) v = existsb (fun u => has_type n D u v) ts.
Proof. reflexivity. Qed.

Lemma has_type_inter n D ts v :
  has_type (S n) D (TInter ts) v = forallb (fun u => has_type n D u v) ts.
Proof. reflexivity. Qed.

Lemma has_type_obj n D props v :
  has_type (S n) D (TObj props) v
  = members_ok (has_type n D) (map obj_member props) v.
Proof. reflexivity. Qed.

Lemma has_type_tuple n D fixed rest l :
  has_type (S n) D (TTuple fixed rest) (VArr l)
  = tuple_ok (has_type n D) fixed rest l.
Proof. reflexivity. Qed.

Lemma has_type_lit n D d x :
  has_type n D (TLit d) x = true -> x = VStr d.
Proof.
  destruct n; [discriminate|]. simpl. destruct x; try discriminate.
  intros H. apply String.eqb_eq in H. now subst.
Qed.

Lemma has_type_number n D x :
  has_type n D TNumber x = true -> exists q, x = VNum q.
Proof.
  destruct n; [discriminate|]. destruct x; try discriminate. eauto.
Qed.

Lemma has_type_boolean n D x :
  has_type n D TBoolean x = true -> exists b, x = VBool b.
Proof.
  destruct n; [discriminate|]. destruct x; try discriminate. eauto.
Qed.

Lemma same_type_covers D c t n x :
  has_type n D t x = true -> has_type (n + c) D t x = true.
Proof.
  apply has_type_le. lia.
Qed.

(** ** One object type inside another *)

Lemma members_ok_covers D c n msa msb v :
  is_weak msb = false ->
  all_covered D c msa msb ->
  members_ok (has_type n D) msa v = true ->
  members_ok (has_type (n + c) D) msb v = true.
Proof.
  intros Hweak Hcov H. destruct v; try discriminate; simpl in *;
    rewrite Hweak; simpl; apply andb_true_iff in H; destruct H as [_ H];
    rewrite forallb_forall in *; intros mb Hmb;
    destruct (Hcov mb Hmb) as (ma & Hma & Hname & Hka & Hkb & Hopt & Hty);
    specialize (H ma Hma).
  - destruct (m_kind ma) eqn:Ka; try congruence;
      destruct (m_kind mb) eqn:Kb; try congruence;
      rewrite <- Hname; unfold prop_ok in *;
      (destruct (obj_get (m_name ma) props) as [x|];
       [ apply orb_true_iff in H; apply orb_true_iff;
         destruct H as [H|H];
         [ left; now apply Hty
         | right; apply andb_true_iff in H; destruct H as [Ho Hu];
           rewrite (Hopt Ho); exact Hu ]
       | now apply Hopt ]).
  - destruct (m_kind ma) eqn:Ka; try congruence;
      destruct (m_kind mb) eqn:Kb; try congruence; now apply Hopt.
Qed.

(** An interface whose members answer for those of another lies inside
    it. *)
Lemma interface_inside D c a b args_a args_b v na ta ea ma nb tb eb mb n :
  find_decl D a = Some (DInterface na ta ea ma) ->
  find_decl D b = Some (DInterface nb tb eb mb) ->
  is_weak (members_of D (TRef b args_b)) = false ->
  all_covered D c (members_of D (TRef a args_a)) (members_of D (TRef b args_b)) ->
  has_type n D (TRef a args_a) v = true ->
  has_type (n + c) D (TRef b args_b) v = true.
Proof.
  intros Ha Hb Hweak Hcov H. destruct n; [discriminate|].
  rewrite (has_type_interface _ _ _ _ _ _ _ _ _ Ha) in H.
  change (S n + c) with (S (n + c)).
  rewrite (has_type_interface _ _ _ _ _ _ _ _ _ Hb).
  eapply members_ok_covers; eassumption.
Qed.

(** ** Every variant is a field *)

Ltac in_list := solve [simpl; repeat (first [left; reflexivity | right])].

Ltac cover_same :=
  solve [ unfold member_covers; simpl; repeat apply conj;
          [ reflexivity | discriminate | discriminate | auto
          | intros; apply same_type_covers; assumption ] ].

(** A discriminant literal against [Type]. *)
Ltac cover_literal :=
  unfold member_covers; simpl; repeat apply conj;
  [ reflexivity | discriminate | discriminate | auto
  | let n := fresh "n" in
    let x := fresh "x" in
    let Hx := fresh "Hx" in
    intros n x Hx; apply has_type_lit in Hx; subst x;
    apply has_type_le with 2; [lia | vm_compute; reflexivity] ].

Ltac known_members D t :=
  let ms := eval vm_compute in (members_of D t) in
  replace (members_of D t) with ms by (vm_compute; reflexivity).

Ltac cover_each :=
  let mb := fresh "mb" in
  let Hmb := fresh "Hmb" in
  intros mb Hmb; simpl in Hmb;
  repeat (destruct Hmb as [<-|Hmb];
          [ first
              [ match goal with
                | |- exists ma, _ /\ member_covers _ _ ma ?m =>
                    exists m; split; [in_list | cover_same]
                end
              | match goal with
                | |- exists ma, In ma (?m :: _) /\ _ =>
                    exists m; split; [left; reflexivity | cover_literal]
                end ] |]);
  contradiction.

Lemma index_variant_covers_field variant :
  In variant (field_variants IndexDts.decls) ->
  (exists na ta ea ma,
     find_decl IndexDts.decls variant = Some (DInterface na ta ea ma))
  /\ all_covered IndexDts.decls 2
       (members_of IndexDts.decls (TRef variant []))
       (members_of IndexDts.decls (TRef "Field" [])).
Proof.
  rewrite index_field_variants. simpl. intros H.
  known_members IndexDts.decls (TRef "Field" []).
  repeat (destruct H as [<-|H];
          [ split; [do 4 eexists; vm_compute; reflexivity|];
            match goal with
            | |- all_covered _ _ (members_of ?D ?t) _ => known_members D t
            end;
            cover_each |]).
  contradiction.
Qed.

Lemma variant_checked_as_field variant n v :
  In variant (field_variants IndexDts.decls) ->
  has_type n IndexDts.decls (ref variant) v = true ->
  has_type (n + 2) IndexDts.decls (ref "Field") v = true.
Proof.
  intros Hv H.
  destruct (index_variant_covers_field variant Hv)
    as [(na & ta & ea & ma & Hd) Hcov].
  unfold ref in *.
  eapply interface_inside; try eassumption; vm_compute; reflexivity.
Qed.

(** Whatever lies inside a variant of [index.d.ts] lies inside [Field]:
    the variant's literal for [type] is one of the keys [Field] asks for,
    and the inherited members are unchanged. *)
Theorem variant_inside_field (variant : string) (v : jsval) :
  In variant (field_variants IndexDts.decls) ->
  conforms IndexDts.decls (ref variant) v ->
  conforms IndexDts.decls (ref "Field") v.
Proof.
  intros Hv [n H]. exists (n + 2).
  exact (variant_checked_as_field variant n v Hv H).
Qed.

(** [variant_inside_field] at a select field with two options. *)
Lemma variant_inside_field_witness :
  In "fields.SelectField" (field_variants IndexDts.decls)
  /\ conforms IndexDts.decls (ref "fields.SelectField") colour_select
  /\ conforms IndexDts.decls (ref "Field") colour_select.
Proof.
  assert (Hv : In "fields.SelectField" (field_variants IndexDts.decls))
    by (rewrite index_field_variants; in_list).
  assert (Hc : conforms IndexDts.decls (ref "fields.SelectField") colour_select)
    by (exists 5; vm_compute; reflexivity).
  repeat apply conj; [exact Hv | exact Hc |].
  exact (variant_inside_field "fields.SelectField" colour_select Hv Hc).
Defined.

(** ** The variants do not overlap *)

Lemma variant_type_member variant :
  In variant (field_variants IndexDts.decls) ->
  exists d na ta ea ma,
    find_decl IndexDts.decls variant = Some (DInterface na ta ea ma)
    /\ discriminant IndexDts.decls variant = Some d
    /\ In (prop "type" (TLit d)) (members_of IndexDts.decls (TRef variant [])).
Proof.
  rewrite index_field_variants. simpl. intros H.
  repeat (destruct H as [<-|H];
          [ do 5 eexists; repeat apply conj;
            [ vm_compute; reflexivity | vm_compute; reflexivity
            | vm_compute; left; reflexivity ] |]).
  contradiction.
Qed.

(** A checked variant value is an object whose [type] is the variant's
    literal. *)
Lemma variant_type_value variant n v :
  In variant (field_variants IndexDts.decls) ->
  has_type n IndexDts.decls (ref variant) v = true ->
  exists fs d,
    v = VObj fs
    /\ discriminant IndexDts.decls variant = Some d
    /\ obj_get "type" fs = Some (VStr d).
Proof.
  intros Hv H.
  destruct (variant_type_member variant Hv)
    as (d & na & ta & ea & ma & Hd & Hdisc & Hin).
  destruct n; [discriminate|]. unfold ref in H.
  rewrite (has_type_interface _ _ _ _ _ _ _ _ _ Hd) in H.
  destruct (members_ok_required _ _ _ _ H Hin) as (fs & x & -> & Hget & Hx);
    [discriminate | reflexivity |].
  apply has_type_lit in Hx. subst x. exists fs, d. auto.
Qed.

Lemma same_discriminant v1 v2 :
  In v1 (field_variants IndexDts.decls) ->
  In v2 (field_variants IndexDts.decls) ->
  discriminant IndexDts.decls v1 = discriminant IndexDts.decls v2 ->
  v1 = v2
  \/ (v1 = "fields.CheckboxField" /\ v2 = "fields.SelectField")
  \/ (v1 = "fields.SelectField" /\ v2 = "fields.CheckboxField").
Proof.
  rewrite index_field_variants. simpl. intros H1 H2.
  repeat (destruct H1 as [<-|H1]; [|]); try contradiction;
    repeat (destruct H2 as [<-|H2]; [|]); try contradiction;
    intros E; vm_compute in E; try discriminate; auto.
Qed.

(** [CheckboxField] wants a boolean [default]; [SelectField] takes a
    string there, or nothing. *)
Lemma checkbox_select_apart n1 n2 v :
  has_type n1 IndexDts.decls (ref "fields.CheckboxField") v = true ->
  has_type n2 IndexDts.decls (ref "fields.SelectField") v = true ->
  False.
Proof.
  intros H1 H2. destruct n1; [discriminate|]. destruct n2; [discriminate|].
  unfold ref in *.
  erewrite has_type_interface in H1 by (vm_compute; reflexivity).
  erewrite has_type_interface in H2 by (vm_compute; reflexivity).
  destruct (members_ok_required _ _ _ (prop "default" TBoolean) H1)
    as (fs & x & -> & Hget & Hx);
    [vm_compute; in_list | discriminate | reflexivity |].
  simpl in Hx, Hget. apply has_type_boolean in Hx. destruct Hx as [b ->].
  assert (Hin : In (prop_opt "default" TString)
                  (members_of IndexDts.decls (TRef "fields.SelectField" [])))
    by (vm_compute; in_list).
  pose proof (members_ok_member _ _ _ _ H2 Hin ltac:(discriminate)) as P.
  simpl in P. rewrite Hget in P. simpl in P. rewrite orb_false_r in P.
  apply has_type_string in P. destruct P as [s P]. discriminate.
Qed.

(** No field definition lies inside two different variants of
    [index.d.ts]: different literals for [type] exclude each other, and the
    two variants that share ['checkbox'] disagree on [default]. *)
Theorem variants_do_not_overlap (v1 v2 : string) (v : jsval) :
  In v1 (field_variants IndexDts.decls) ->
  In v2 (field_variants IndexDts.decls) ->
  conforms IndexDts.decls (ref v1) v ->
  conforms IndexDts.decls (ref v2) v ->
  v1 = v2.
Proof.
  intros In1 In2 [n1 H1] [n2 H2].
  destruct (variant_type_value _ _ _ In1 H1) as (fs1 & d1 & E1 & D1 & T1).
  destruct (variant_type_value _ _ _ In2 H2) as (fs2 & d2 & E2 & D2 & T2).
  subst v. injection E2 as <-. rewrite T1 in T2. injection T2 as <-.
  destruct (same_discriminant v1 v2 In1 In2) as [E|[[-> ->]|[-> ->]]].
  - congruence.
  - exact E.
  - exfalso. eapply checkbox_select_apart; eassumption.
  - exfalso. eapply checkbox_select_apart; eassumption.
Qed.

(** [variants_do_not_overlap] at a checkbox, read as [CheckboxField]
    twice. *)
Lemma variants_do_not_overlap_witness :
  conforms IndexDts.decls (ref "fields.CheckboxField")
    (checkbox_field "Enabled" true)
  /\ "fields.CheckboxField" = "fields.CheckboxField".
Proof.
  assert (Hv : In "fields.CheckboxField" (field_variants IndexDts.decls))
    by (rewrite index_field_variants; in_list).
  assert (Hc : conforms IndexDts.decls (ref "fields.CheckboxField")
                 (checkbox_field "Enabled" true))
    by (exists 5; vm_compute; reflexivity).
  split; [exact Hc|].
  exact (variants_do_not_overlap _ _ _ Hv Hv Hc Hc).
Defined.

(** A checkbox definition is therefore not a [SelectField], for any label
    and default. *)
Lemma checkbox_is_not_select label default n :
  has_type n IndexDts.decls (ref "fields.SelectField")
    (checkbox_field label default) = false.
Proof.
  apply not_true_is_false. intros H.
  apply (checkbox_select_apart 5 n (checkbox_field label default));
    [vm_compute; reflexivity | exact H].
Qed.

(** ** The ['select'] literal *)

Lemma no_select_discriminant variant :
  In variant (field_variants IndexDts.decls) ->
  discriminant IndexDts.decls variant <> Some "select".
Proof.
  rewrite index_field_variants. simpl. intros H.
  repeat (destruct H as [<-|H]; [vm_compute; discriminate|]).
  contradiction.
Qed.

(** A definition whose [type] is ['select'] lies inside no variant of
    [index.d.ts], whatever else it holds. *)
Theorem select_typed_fits_no_variant (variant : string)
    (fs : list (string * jsval)) (n : nat) :
  In variant (field_variants IndexDts.decls) ->
  obj_get "type" fs = Some (VStr "select") ->
  has_type n IndexDts.decls (ref variant) (VObj fs) = false.
Proof.
  intros Hv Hget. apply not_true_is_false. intros H.
  destruct (variant_type_value _ _ _ Hv H) as (fs' & d & E & Hd & Ht).
  injection E as <-. rewrite Hget in Ht. injection Ht as <-.
  exact (no_select_discriminant variant Hv Hd).
Qed.

(** [select_typed_fits_no_variant] at a select definition that [Field]
    accepts. *)
Lemma select_typed_fits_no_variant_witness :
  In "fields.SelectField" (field_variants IndexDts.decls)
  /\ conforms IndexDts.decls (ref "Field")
       (select_typed_field "Colour" ["red"; "green"])
  /\ has_type 5 IndexDts.decls (ref "fields.SelectField")
       (select_typed_field "Colour" ["red"; "green"]) = false.
Proof.
  assert (Hv : In "fields.SelectField" (field_variants IndexDts.decls))
    by (rewrite index_field_variants; in_list).
  repeat apply conj.
  - exact Hv.
  - exists 4. vm_compute. reflexivity.
  - unfold select_typed_field.
    apply select_typed_fits_no_variant; [exact Hv | reflexivity].
Defined.

(** ** Section headings *)

Lemma has_type_ambient n D name args v :
  find_decl D name = None ->
  has_type (S n) D (TRef name args) v
  = ambient_ok D (has_type n D) name args v.
Proof.
  intros H. simpl. rewrite H. reflexivity.
Qed.

Lemma element_not_declared : find_decl IndexDts.decls "Element" = None.
Proof. vm_compute. reflexivity. Qed.

Lemma dom_sub_in chain name :
  In name dom_classes ->
  dom_sub chain name = true <-> In name chain.
Proof.
  intros Hn. unfold dom_sub. rewrite andb_true_iff, !existsb_exists. split.
  - intros [_ (c & Hc & E)]. apply String.eqb_eq in E. now subst.
  - intros Hc. split; exists name; (split; [assumption | apply String.eqb_refl]).
Qed.

Lemma element_is_dom_class : In "Element" dom_classes.
Proof. left. reflexivity. Qed.

Lemma has_type_element n x :
  has_type n IndexDts.decls (ref "Element") x = true ->
  exists chain, x = VDom chain /\ In "Element" chain.
Proof.
  destruct n; [discriminate|]. unfold ref.
  rewrite (has_type_ambient _ _ _ _ _ element_not_declared).
  unfold ambient_ok. simpl String.eqb. cbv iota.
  destruct x; try discriminate. intros H.
  apply (dom_sub_in _ _ element_is_dom_class) in H. eauto.
Qed.

Lemma element_has_type n chain :
  In "Element" chain ->
  has_type (S n) IndexDts.decls (ref "Element") (VDom chain) = true.
Proof.
  intros H. unfold ref.
  rewrite (has_type_ambient _ _ _ _ _ element_not_declared).
  apply (dom_sub_in _ _ element_is_dom_class). exact H.
Qed.

Lemma heading_checked n x :
  has_type n IndexDts.decls (TUnion [TString; ref "Element"]) x = true ->
  heading_like x.
Proof.
  destruct n; [discriminate|]. rewrite has_type_union. simpl.
  rewrite orb_false_r, orb_true_iff. intros [H|H].
  - left. eapply has_type_string; eassumption.
  - right. eapply has_type_element; eassumption.
Qed.

Lemma heading_accepted n x :
  heading_like x ->
  has_type (S (S n)) IndexDts.decls (TUnion [TString; ref "Element"]) x = true.
Proof.
  intros [[s ->]|[c [-> Hc]]]; rewrite has_type_union;
    unfold existsb.
  - reflexivity.
  - rewrite (element_has_type n c Hc). rewrite orb_true_r. reflexivity.
Qed.

Lemma subheading_checked n x :
  has_type n IndexDts.decls (TUnion [TString; ref "Element"; TUndefined]) x
  = true ->
  heading_like x \/ x = VUndefined.
Proof.
  destruct n; [discriminate|]. rewrite has_type_union. simpl.
  rewrite orb_false_r, !orb_true_iff. intros [H|[H|H]].
  - left. left. eapply has_type_string; eassumption.
  - left. right. eapply has_type_element; eassumption.
  - right. destruct n; [discriminate|]. destruct x; try discriminate.
    reflexivity.
Qed.

Lemma subheading_accepted n x :
  heading_like x \/ x = VUndefined ->
  has_type (S (S n)) IndexDts.decls
    (TUnion [TString; ref "Element"; TUndefined]) x = true.
Proof.
  intros [[[s ->]|[c [-> Hc]]]| ->]; rewrite has_type_union;
    unfold existsb.
  - reflexivity.
  - rewrite (element_has_type n c Hc). rewrite orb_true_r. reflexivity.
  - rewrite !orb_true_iff. right. right. left. reflexivity.
Qed.

Lemma label_section_is_union n v :
  has_type (S n) IndexDts.decls (ref "LabelSection") v
  = has_type n IndexDts.decls
      (TUnion [TString; ref "Element";
               TTuple [TUnion [TString; ref "Element"];
                       TUnion [TString; ref "Element"; TUndefined]] None]) v.
Proof.
  unfold ref at 1. erewrite has_type_alias by (vm_compute; reflexivity).
  reflexivity.
Qed.

(** The values of [LabelSection] are a heading (string or element), or an
    array of exactly two entries, a heading and a subheading that may be
    [undefined]; arrays of any other length are outside. *)
Theorem label_section_values (v : jsval) :
  conforms IndexDts.decls (ref "LabelSection") v <-> section_like v.
Proof.
  split.
  - intros [n H]. destruct n; [discriminate|].
    rewrite label_section_is_union in H.
    destruct n; [discriminate|]. rewrite has_type_union in H. simpl in H.
    rewrite orb_false_r, !orb_true_iff in H. destruct H as [H|[H|H]].
    + left. left. eapply has_type_string; eassumption.
    + left. right. eapply has_type_element; eassumption.
    + right. destruct n; [discriminate|]. destruct v; try discriminate.
      rewrite has_type_tuple in H. simpl in H.
      destruct items as [|h [|sh [|third items]]]; try discriminate.
      * rewrite andb_false_r in H. discriminate.
      * rewrite andb_true_r, andb_true_iff in H. destruct H as [Hh Hs].
        exists h, sh. repeat apply conj; [reflexivity | |].
        -- eapply heading_checked; eassumption.
        -- eapply subheading_checked; eassumption.
      * rewrite !andb_false_r in H. discriminate.
  - intros H. exists 5. rewrite label_section_is_union, has_type_union.
    unfold existsb.
    destruct H as [[[s ->]|[c [-> Hc]]]|(h & sh & -> & Hh & Hs)].
    + reflexivity.
    + rewrite (element_has_type 2 c Hc). rewrite orb_true_r. reflexivity.
    + rewrite !orb_true_iff. right. right. left.
      rewrite has_type_tuple. unfold tuple_ok.
      rewrite (heading_accepted 0 h Hh), (subheading_accepted 0 sh Hs).
      reflexivity.
Qed.

(** ** Options and their fields record *)

Lemma all_conform_bound {A} (f : A -> jsval) D t (l : list A) :
  (forall a, In a l -> conforms D t (f a)) ->
  exists n, forallb (fun a => has_type n D t (f a)) l = true.
Proof.
  induction l as [|a l IH]; intros H.
  - exists 0. reflexivity.
  - destruct IH as [n1 H1]; [intros; apply H; now right|].
    destruct (H a) as [n2 H2]; [now left|].
    exists (Nat.max n1 n2). simpl. apply andb_true_iff. split.
    + apply has_type_le with n2; [lia | assumption].
    + revert H1. apply forallb_weaken. intros x.
      apply has_type_le. lia.
Qed.

Lemma has_type_record n D tv fs :
  find_decl D "Record" = None ->
  has_type (S n) D (TRef "Record" [TString; tv]) (VObj fs)
  = forallb (fun kv => has_type n D tv (snd kv)) fs.
Proof.
  intros H. rewrite (has_type_ambient _ _ _ _ _ H). reflexivity.
Qed.

Lemma config_fields_is_record n v :
  has_type (S n) IndexDts.decls (ref "ConfigFields") v
  = has_type n IndexDts.decls (TRef "Record" [TString; TRef "Field" []]) v.
Proof.
  unfold ref. erewrite has_type_alias by (vm_compute; reflexivity).
  reflexivity.
Qed.

Lemma variant_valued_bound fs :
  variant_valued IndexDts.decls fs ->
  exists n,
    has_type (S (S n)) IndexDts.decls (ref "ConfigFields") (VObj fs) = true.
Proof.
  intros H.
  destruct (all_conform_bound snd IndexDts.decls (ref "Field") fs) as [n Hn].
  { intros kv Hin. destruct (H kv Hin) as (variant & Hv & [m Hm]).
    exists (m + 2). now apply (variant_checked_as_field variant). }
  exists n. rewrite config_fields_is_record, has_type_record; [exact Hn|].
  vm_compute. reflexivity.
Qed.

(** A record all of whose entries are definitions of variants is a
    [ConfigFields], whatever its keys and however many there are; the empty
    record is one. *)
Theorem variant_valued_record_is_config_fields (fs : list (string * jsval)) :
  variant_valued IndexDts.decls fs ->
  conforms IndexDts.decls (ref "ConfigFields") (VObj fs).
Proof.
  intros H. destruct (variant_valued_bound fs H) as [n Hn].
  exists (S (S n)). exact Hn.
Qed.

Lemma members_ok_intro rec ms fs :
  is_weak ms = false ->
  (forall m, In m ms ->
     m_kind m <> ConstructSig
     /\ prop_ok rec (m_optional m) (m_type m) (obj_get (m_name m) fs) = true) ->
  members_ok rec ms (VObj fs) = true.
Proof.
  intros Hweak H. simpl. rewrite Hweak. simpl.
  apply forallb_forall. intros m Hm.
  destruct (H m Hm) as [Hk Hp]. destruct (m_kind m); congruence.
Qed.

(** Options that give [id], [title] and [css] as strings and a fields
    record of variant definitions are inside [InitOptions]: [events] and
    [frame] may be left out. *)
Theorem plain_options_accepted (id title css : string)
    (fs : list (string * jsval)) :
  variant_valued IndexDts.decls fs ->
  conforms IndexDts.decls (ref "InitOptions") (plain_options id title css fs).
Proof.
  intros H. destruct (variant_valued_bound fs H) as [n Hn].
  exists (S (S (S n))). unfold ref at 1.
  erewrite has_type_interface by (vm_compute; reflexivity).
  known_members IndexDts.decls (TRef "InitOptions" []).
  apply members_ok_intro; [vm_compute; reflexivity|]. intros m Hm. simpl in Hm.
  repeat (destruct Hm as [<-|Hm];
          [split; [discriminate|]; try reflexivity|]);
    try contradiction.
  unfold plain_options. simpl obj_get. unfold prop_ok.
  change (TRef "ConfigFields" []) with (ref "ConfigFields").
  simpl m_type. change (TRef "ConfigFields" []) with (ref "ConfigFields").
  rewrite Hn. reflexivity.
Qed.

Lemma two_fields_variant_valued : variant_valued IndexDts.decls two_fields.
Proof.
  intros kv [<-|[<-|[]]].
  - exists "fields.CheckboxField". split.
    + rewrite index_field_variants. in_list.
    + exists 5. vm_compute. reflexivity.
  - exists "fields.SelectField". split.
    + rewrite index_field_variants. in_list.
    + exists 5. vm_compute. reflexivity.
Defined.

(** [variant_valued_record_is_config_fields] at a record of two fields. *)
Lemma variant_valued_record_is_config_fields_witness :
  variant_valued IndexDts.decls two_fields
  /\ conforms IndexDts.decls (ref "ConfigFields") (VObj two_fields).
Proof.
  split; [exact two_fields_variant_valued|].
  exact (variant_valued_record_is_config_fields two_fields
           two_fields_variant_valued).
Defined.

(** [plain_options_accepted] at options with the two fields. *)
Lemma plain_options_accepted_witness :
  variant_valued IndexDts.decls two_fields
  /\ conforms IndexDts.decls (ref "InitOptions")
       (plain_options "cfg" "Settings" "" two_fields).
Proof.
  split; [exact two_fields_variant_valued|].
  exact (plain_options_accepted "cfg" "Settings" "" two_fields
           two_fields_variant_valued).
Defined.

(** ** Members that must be present *)

Lemma init_options_required_keys :
  required_keys IndexDts.decls (ref "InitOptions")
  = ["id"; "title"; "fields"; "css"].
Proof. vm_compute. reflexivity. Qed.

Lemma instance_required_keys :
  required_keys IndexDts.decls (ref "Instance")
  = keys_of IndexDts.decls (ref "Instance")
  /\ length (keys_of IndexDts.decls (ref "Instance")) = 20.
Proof. split; vm_compute; reflexivity. Qed.

Lemma required_key_requires D t k :
  In k (required_keys D t) -> requires D t k = true.
Proof.
  unfold required_keys. rewrite filter_In. tauto.
Qed.

(** Options that lack [id], [title], [fields] or [css] are outside
    [InitOptions], whatever else they hold. *)
Theorem options_missing_required_key (k : string)
    (fs : list (string * jsval)) (n : nat) :
  In k ["id"; "title"; "fields"; "css"] ->
  obj_get k fs = None ->
  has_type n IndexDts.decls (ref "InitOptions") (VObj fs) = false.
Proof.
  intros Hk Hget. rewrite <- init_options_required_keys in Hk.
  apply required_key_requires in Hk. unfold ref in *.
  eapply required_member_missing; try eassumption; vm_compute; reflexivity.
Qed.

(** [options_missing_required_key] at options without [css]. *)
Lemma options_missing_required_key_witness :
  In "css" ["id"; "title"; "fields"; "css"]
  /\ has_type 6 IndexDts.decls (ref "InitOptions")
       (VObj [ ("id", VStr "cfg"); ("title", VStr "Settings");
               ("fields", VObj []) ]) = false.
Proof.
  assert (Hk : In "css" ["id"; "title"; "fields"; "css"]) by in_list.
  split; [exact Hk|].
  apply (options_missing_required_key "css"); [exact Hk | reflexivity].
Defined.

(** [Instance] has no optional member: an object that lacks any one of its
    twenty names (operations, callbacks, data) is outside [Instance], the
    type of the global [GM_config]. *)
Theorem instance_missing_member (k : string)
    (fs : list (string * jsval)) (n : nat) :
  In k (keys_of IndexDts.decls (ref "Instance")) ->
  obj_get k fs = None ->
  find_var IndexDts.decls "GM_config" = Some (ref "Instance")
  /\ has_type n IndexDts.decls (ref "Instance") (VObj fs) = false.
Proof.
  intros Hk Hget. split; [reflexivity|].
  rewrite <- (proj1 instance_required_keys) in Hk.
  apply required_key_requires in Hk. unfold ref in *.
  eapply required_member_missing; try eassumption; vm_compute; reflexivity.
Qed.

(** [instance_missing_member] at an object that has only the data. *)
Lemma instance_missing_member_witness :
  In "save" (keys_of IndexDts.decls (ref "Instance"))
  /\ has_type 6 IndexDts.decls (ref "Instance")
       (VObj [ ("id", VStr "cfg"); ("title", VStr "Settings");
               ("css", VStr ""); ("fields", VObj []) ]) = false.
Proof.
  assert (Hk : In "save" (keys_of IndexDts.decls (ref "Instance")))
    by (vm_compute; in_list).
  split; [exact Hk|].
  apply (instance_missing_member "save"); [exact Hk | reflexivity].
Defined.

(** ** Callbacks that may be left out *)















(** * The two declaration files side by side *)

(** ** [FloatField] *)

Lemma part000_float_is_inter n v :
  has_type (S n) Part000.decls (ref "fields.FloatField") v
  = has_type n Part000.decls
      (TInter [TRef "Field" [TLit "float"]; TObj [("default", false, TString)]])
      v.
Proof.
  unfold ref. erewrite has_type_alias by (vm_compute; reflexivity).
  reflexivity.
Qed.

Lemma part000_float_default n v :
  has_type n Part000.decls (ref "fields.FloatField") v = true ->
  exists fs s, v = VObj fs /\ obj_get "default" fs = Some (VStr s).
Proof.
  destruct n; [discriminate|]. rewrite part000_float_is_inter.
  destruct n; [discriminate|]. rewrite has_type_inter. unfold forallb.
  rewrite !andb_true_iff. intros (_ & H & _).
  destruct n; [discriminate|]. rewrite has_type_obj in H.
  destruct (members_ok_required _ _ _ (prop "default" TString) H)
    as (fs & x & -> & Hget & Hx);
    [in_list | discriminate | reflexivity |].
  simpl in Hget, Hx. apply has_type_string in Hx. destruct Hx as [s ->].
  eauto.
Qed.

Lemma index_float_default n v :
  has_type n IndexDts.decls (ref "fields.FloatField") v = true ->
  exists fs q, v = VObj fs /\ obj_get "default" fs = Some (VNum q).
Proof.
  destruct n; [discriminate|]. unfold ref.
  erewrite has_type_interface by (vm_compute; reflexivity). intros H.
  destruct (members_ok_required _ _ _ (prop "default" TNumber) H)
    as (fs & x & -> & Hget & Hx);
    [vm_compute; in_list | discriminate | reflexivity |].
  simpl in Hget, Hx. apply has_type_number in Hx. destruct Hx as [q ->].
  eauto.
Qed.

(** The two files give [FloatField] types with no value in common: the
    second file wants a string [default], [index.d.ts] a number.  A float
    field with a string default is inside the former for every label and
    string, one with a number default inside the latter. *)
Theorem float_field_types_disagree :
  (forall v,
     ~ (conforms Part000.decls (ref "fields.FloatField") v
        /\ conforms IndexDts.decls (ref "fields.FloatField") v))
  /\ (forall label s,
        conforms Part000.decls (ref "fields.FloatField")
          (float_field label (VStr s)))
  /\ (forall label q,
        conforms IndexDts.decls (ref "fields.FloatField")
          (float_field label (VNum q))).
Proof.
  repeat apply conj.
  - intros v [[n1 H1] [n2 H2]].
    destruct (part000_float_default _ _ H1) as (fs1 & s & E1 & G1).
    destruct (index_float_default _ _ H2) as (fs2 & q & E2 & G2).
    subst v. injection E2 as <-. congruence.
  - intros label s. exists 5. vm_compute. reflexivity.
  - intros label q. exists 5. vm_compute. reflexivity.
Qed.

(** ** Literal unions: [Type] and [LabelPosition] *)

Lemma lit_union_checked n D ks v :
  has_type n D (TUnion (map TLit ks)) v = true ->
  exists k, v = VStr k /\ In k ks.
Proof.
  destruct n; [discriminate|]. rewrite has_type_union, existsb_exists.
  intros (u & Hin & Hu). apply in_map_iff in Hin.
  destruct Hin as (k & <- & Hk). apply has_type_lit in Hu. eauto.
Qed.

Lemma lit_union_accepted n D ks k :
  In k ks -> has_type (S (S n)) D (TUnion (map TLit ks)) (VStr k) = true.
Proof.
  intros Hk. rewrite has_type_union, existsb_exists. exists (TLit k).
  split; [now apply in_map | simpl; apply String.eqb_refl].
Qed.

Lemma label_position_is_union D n v :
  In D source_tables ->
  has_type (S n) D (ref "LabelPosition") v
  = has_type n D (TUnion (map TLit (lit_domain D (ref "LabelPosition")))) v.
Proof.
  unfold ref.
  intros [<-|[<-|[]]]; erewrite has_type_alias by (vm_compute; reflexivity);
    reflexivity.
Qed.

(** In either file the values of [LabelPosition] are its listed positions,
    as strings. *)
Lemma label_position_values D v :
  In D source_tables ->
  conforms D (ref "LabelPosition") v <->
  exists k, v = VStr k /\ In k (lit_domain D (ref "LabelPosition")).
Proof.
  intros HD. split.
  - intros [n H]. destruct n; [discriminate|].
    rewrite (label_position_is_union D n v HD) in H.
    eapply lit_union_checked; eassumption.
  - intros (k & -> & Hk). exists 3.
    rewrite (label_position_is_union D 2 _ HD).
    now apply lit_union_accepted.
Qed.

(** Whatever the second file accepts as a [Type] or as a [LabelPosition],
    [index.d.ts] accepts too; the converse fails at ['int'] and at
    ['left']. *)
Theorem second_file_literals_inside_first :
  type_inside Part000.decls IndexDts.decls (ref "Type")
  /\ type_inside Part000.decls IndexDts.decls (ref "LabelPosition")
  /\ ~ type_inside IndexDts.decls Part000.decls (ref "Type")
  /\ ~ type_inside IndexDts.decls Part000.decls (ref "LabelPosition").
Proof.
  assert (HI : In IndexDts.decls source_tables) by (simpl; auto).
  assert (HP : In Part000.decls source_tables) by (simpl; auto).
  repeat apply conj.
  - intros v Hv. apply (type_values _ _ HP) in Hv.
    destruct Hv as (k & -> & Hk). apply (type_values _ _ HI).
    exists k. split; [reflexivity|].
    rewrite part000_keys in Hk. rewrite index_keys.
    simpl in *. tauto.
  - intros v Hv. apply (label_position_values _ _ HP) in Hv.
    destruct Hv as (k & -> & Hk). apply (label_position_values _ _ HI).
    exists k. split; [reflexivity|].
    vm_compute in Hk. vm_compute. tauto.
  - intros H. specialize (H (VStr "int")).
    assert (A : conforms IndexDts.decls (ref "Type") (VStr "int"))
      by (exists 3; vm_compute; reflexivity).
    apply H, (type_values _ _ HP) in A. destruct A as (k & E & Hk).
    injection E as <-. rewrite part000_keys in Hk. simpl in Hk.
    repeat (destruct Hk as [Hk|Hk]; [discriminate|]). exact Hk.
  - intros H. specialize (H (VStr "left")).
    assert (A : conforms IndexDts.decls (ref "LabelPosition") (VStr "left"))
      by (exists 3; vm_compute; reflexivity).
    apply H, (label_position_values _ _ HP) in A. destruct A as (k & E & Hk).
    injection E as <-. vm_compute in Hk.
    repeat (destruct Hk as [Hk|Hk]; [discriminate|]). exact Hk.
Qed.

(** ** [RadioField.options] *)

Lemma strings_accepted n D ss :
  forallb (has_type (S n) D TString) (map VStr ss) = true.
Proof.
  apply forallb_forall. intros x Hx. apply in_map_iff in Hx.
  destruct Hx as (s & <- & _). reflexivity.
Qed.

Lemma part000_radio_is_inter n v :
  has_type (S n) Part000.decls (ref "fields.RadioField") v
  = has_type n Part000.decls
      (TInter [TRef "Field" [TLit "radio"];
               TObj [("default", false, TString);
                     ("options", false, TArray TString)]]) v.
Proof.
  unfold ref. erewrite has_type_alias by (vm_compute; reflexivity).
  reflexivity.
Qed.

Lemma part000_radio_accepted label d ss :
  has_type 5 Part000.decls (ref "fields.RadioField") (radio_field label d ss)
  = true.
Proof.
  rewrite part000_radio_is_inter, has_type_inter. unfold forallb.
  rewrite !andb_true_iff. repeat apply conj; [| |reflexivity].
  - vm_compute. reflexivity.
  - rewrite has_type_obj.
    apply members_ok_intro; [vm_compute; reflexivity|]. intros m Hm.
    simpl in Hm. destruct Hm as [<-|[<-|[]]]; (split; [discriminate|]).
    + reflexivity.
    + unfold radio_field. simpl obj_get. unfold prop_ok. simpl m_type.
      change (has_type 2 Part000.decls (TArray TString) (VArr (map VStr ss)))
        with (forallb (has_type 1 Part000.decls TString) (map VStr ss)).
      rewrite strings_accepted. reflexivity.
Qed.

Lemma index_radio_accepted label d s ss :
  has_type 5 IndexDts.decls (ref "fields.RadioField")
    (radio_field label d (s :: ss)) = true.
Proof.
  unfold ref. erewrite has_type_interface by (vm_compute; reflexivity).
  known_members IndexDts.decls (TRef "fields.RadioField" []).
  apply members_ok_intro; [vm_compute; reflexivity|]. intros m Hm. simpl in Hm.
  repeat (destruct Hm as [<-|Hm];
          [split; [discriminate|]; try (vm_compute; reflexivity)|]);
    try contradiction.
  unfold radio_field. simpl obj_get. unfold prop_ok. simpl m_type.
  change (has_type 4 IndexDts.decls
            (TReadonly (TTuple [TString] (Some TString)))
            (VArr (VStr s :: map VStr ss)))
    with (has_type 2 IndexDts.decls TString (VStr s)
          && forallb (has_type 2 IndexDts.decls TString) (map VStr ss)).
  rewrite strings_accepted. reflexivity.
Qed.

(** A radio field with string default and string options is inside the
    second file's [RadioField] for every option list, the empty one
    included; it is inside that of [index.d.ts] exactly when the list is
    not empty. *)
Theorem radio_options_in_both_files (label d : string) (ss : list string) :
  conforms Part000.decls (ref "fields.RadioField") (radio_field label d ss)
  /\ (conforms IndexDts.decls (ref "fields.RadioField")
        (radio_field label d ss) <-> ss <> []).
Proof.
  split; [exists 5; apply part000_radio_accepted|]. split.
  - intros [n H] ->.
    apply (options_of_checked n "fields.RadioField") in H; [|in_list].
    destruct H as (fs & o & os & E & Hget). injection E as <-.
    vm_compute in Hget. discriminate.
  - intros Hne. destruct ss as [|s ss]; [congruence|].
    exists 5. apply index_radio_accepted.
Qed.

(** * Operations and callbacks of [Instance] *)

(** Apart from [get] and [create], no operation of [Instance] returns
    anything: every signature of the other ten ends in [void]. *)
Theorem operations_return_void (m : member) :
  In m (members_of IndexDts.decls Instance_F) ->
  has_kind MethodSig m = true ->
  m_name m <> "get" ->
  m_name m <> "create" ->
  exists tps ps, m_type m = TFun tps ps TVoid.
Proof.
  known_members IndexDts.decls Instance_F. simpl. intros H Hk Hg Hc.
  repeat (destruct H as [<-|H];
          [first [ discriminate Hk
                 | exfalso; apply Hg; reflexivity
                 | exfalso; apply Hc; reflexivity
                 | do 2 eexists; reflexivity ] |]).
  contradiction.
Qed.

(** [operations_return_void] at [save]. *)
Lemma operations_return_void_witness :
  In (method "save" [] [] TVoid) (members_of IndexDts.decls Instance_F)
  /\ exists tps ps, m_type (method "save" [] [] TVoid) = TFun tps ps TVoid.
Proof.
  assert (H : In (method "save" [] [] TVoid)
                (members_of IndexDts.decls Instance_F))
    by (vm_compute; in_list).
  split; [exact H|].
  apply (operations_return_void _ H); [reflexivity | discriminate | discriminate].
Defined.

(** For every type argument [C], the [onSave] callback of the instance
    that [new GM_configInit<C>] gives takes one parameter, of the very type
    of the instance's [fields], and returns nothing; the [onSave] that
    [InitOptions.events] carries takes [InitOptions['fields']], which is
    [ConfigFields], whatever [C] is. *)
Theorem on_save_receives_the_fields (C : ty) :
  (exists inst,
     new_type IndexDts.decls "GM_configInit" [C] = Some inst
     /\ member_type IndexDts.decls inst "fields"
        = Some (TIndex C (TLit "fields"))
     /\ option_map (resolve IndexDts.decls)
          (member_type IndexDts.decls inst "onSave")
        = Some (TFun [] [arg "fields" (TIndex C (TLit "fields"))] TVoid))
  /\ (exists ev,
        member_type IndexDts.decls (ref "InitOptions") "events" = Some ev
        /\ option_map (resolve IndexDts.decls)
             (member_type IndexDts.decls ev "onSave")
           = Some (TFun [] [arg "fields" IndexDts.InitOptions_fields] TVoid)
        /\ eval_index IndexDts.decls IndexDts.InitOptions_fields
           = ref "ConfigFields").
Proof.
  split.
  - exists (TRef "Instance" [TIndex C (TLit "fields")]).
    repeat apply conj; vm_compute; reflexivity.
  - exists (TRef "Events" [IndexDts.InitOptions_fields]).
    repeat apply conj; vm_compute; reflexivity.
Qed.

(** * The second file on its own *)

Ltac cover_literal_by Hkey :=
  solve [ unfold member_covers; simpl; repeat apply conj;
          [ reflexivity | discriminate | discriminate | auto
          | let n := fresh "n" in
            let x := fresh "x" in
            let Hx := fresh "Hx" in
            intros n x Hx; apply has_type_lit in Hx; subst x;
            apply has_type_le with 2; [lia | exact Hkey] ] ].

Ltac cover_from l tac :=
  match l with
  | ?m :: ?l' => first [ exists m; split; [in_list | tac] | cover_from l' tac ]
  end.

Lemma part000_type_accepts_key d :
  In d (keys_of Part000.decls (ref "TypeMap")) ->
  has_type 2 Part000.decls (TRef "Type" []) (VStr d) = true.
Proof.
  intros H. erewrite has_type_alias by (vm_compute; reflexivity).
  now apply keyof_has_type.
Qed.

(** [Field<'d'>] lies inside [Field] for every key ['d'] of [TypeMap]. *)
Lemma part000_field_of_key d n v :
  In d (keys_of Part000.decls (ref "TypeMap")) ->
  has_type n Part000.decls (TRef "Field" [TLit d]) v = true ->
  has_type (n + 2) Part000.decls (TRef "Field" []) v = true.
Proof.
  intros Hd H. apply part000_type_accepts_key in Hd.
  eapply interface_inside; try exact H; try (vm_compute; reflexivity).
  known_members Part000.decls (TRef "Field" [TLit d]).
  known_members Part000.decls (TRef "Field" []).
  intros mb Hmb. simpl in Hmb.
  repeat (destruct Hmb as [<-|Hmb];
          [ match goal with
            | |- exists ma, In ma ?l /\ _ =>
                cover_from l ltac:(first [cover_same | cover_literal_by Hd])
            end |]).
  contradiction.
Qed.

Lemma part000_variant_field_part variant :
  In variant (field_variants Part000.decls) ->
  exists d rest,
    In d (keys_of Part000.decls (ref "TypeMap"))
    /\ forall n v,
         has_type (S n) Part000.decls (ref variant) v
         = has_type n Part000.decls (TInter (TRef "Field" [TLit d] :: rest)) v.
Proof.
  intros H. vm_compute in H.
  repeat (destruct H as [<-|H];
          [ do 2 eexists; split;
            [ | intros n v; unfold ref;
                erewrite has_type_alias by (vm_compute; reflexivity);
                reflexivity ];
            vm_compute; in_list |]).
  contradiction.
Qed.

(** In the second file, too, whatever lies inside a variant lies inside
    [Field]: a variant is an intersection with [Field<'d'>] for a key
    ['d'] of [TypeMap]. *)
Theorem part000_variant_inside_field (variant : string) (v : jsval) :
  In variant (field_variants Part000.decls) ->
  conforms Part000.decls (ref variant) v ->
  conforms Part000.decls (ref "Field") v.
Proof.
  intros Hv [n H].
  destruct (part000_variant_field_part variant Hv) as (d & rest & Hd & E).
  destruct n; [discriminate|]. rewrite E in H.
  destruct n; [discriminate|]. rewrite has_type_inter in H.
  simpl in H. apply andb_true_iff in H. destruct H as [H _].
  exists (n + 2). unfold ref. now apply (part000_field_of_key d).
Qed.

(** [part000_variant_inside_field] at a text field. *)
Lemma part000_variant_inside_field_witness :
  In "fields.TextField" (field_variants Part000.decls)
  /\ conforms Part000.decls (ref "fields.TextField")
       (text_field_with "Name" "")
  /\ conforms Part000.decls (ref "Field") (text_field_with "Name" "").
Proof.
  assert (Hv : In "fields.TextField" (field_variants Part000.decls))
    by (vm_compute; in_list).
  assert (Hc : conforms Part000.decls (ref "fields.TextField")
                 (text_field_with "Name" ""))
    by (exists 6; vm_compute; reflexivity).
  repeat apply conj; [exact Hv | exact Hc |].
  exact (part000_variant_inside_field _ _ Hv Hc).
Defined.

Lemma part000_html_element n x :
  has_type n Part000.decls (TRef "HTMLElement" []) x = true ->
  exists chain, x = VDom chain /\ In "HTMLElement" chain.
Proof.
  destruct n; [discriminate|].
  rewrite has_type_ambient by (vm_compute; reflexivity).
  unfold ambient_ok. simpl String.eqb. cbv iota.
  destruct x; try discriminate. intros H.
  apply dom_sub_in in H; [eauto | in_list].
Qed.

Lemma constructor_options_cover_init_options :
  all_covered Part000.decls 0
    (members_of Part000.decls (TRef "ConfigConstructorOptions" []))
    (members_of Part000.decls (TRef "InitOptions" [])).
Proof.
  known_members Part000.decls (TRef "ConfigConstructorOptions" []).
  known_members Part000.decls (TRef "InitOptions" []).
  intros mb Hmb. simpl in Hmb.
  repeat (destruct Hmb as [<-|Hmb];
          [ match goal with
            | |- exists ma, In ma ?l /\ _ => cover_from l cover_same
            end |]).
  contradiction.
Qed.

(** The construct signature of the second file's [Constructor] takes one
    parameter, [config: ConfigConstructorOptions], and that type is
    [InitOptions] with a mandatory [frame]: every value inside it is inside
    [InitOptions] and carries, under [frame], a DOM node that is an
    instance of [HTMLElement]. *)
Theorem constructor_options_need_frame (v : jsval) :
  conforms Part000.decls (ref "ConfigConstructorOptions") v ->
  construct_params Part000.decls (ref "Constructor")
    = Some [("config", ref "ConfigConstructorOptions")]
  /\ conforms Part000.decls (ref "InitOptions") v
  /\ exists fs chain,
       v = VObj fs /\ obj_get "frame" fs = Some (VDom chain)
       /\ In "HTMLElement" chain.
Proof.
  intros [n H]. unfold ref in *. repeat apply conj.
  - vm_compute. reflexivity.
  - exists (n + 0).
    eapply interface_inside; try exact H; try (vm_compute; reflexivity).
    exact constructor_options_cover_init_options.
  - destruct n; [discriminate|].
    erewrite has_type_interface in H by (vm_compute; reflexivity).
    destruct (members_ok_required _ _ _ (prop "frame" (ref "HTMLElement")) H)
      as (fs & x & -> & Hget & Hx);
      [vm_compute; in_list | discriminate | reflexivity |].
    simpl in Hget, Hx. apply part000_html_element in Hx.
    destruct Hx as (c & -> & Hc). eauto.
Qed.

(** [constructor_options_need_frame] at options framed by an iframe. *)
Lemma constructor_options_need_frame_witness :
  conforms Part000.decls (ref "ConfigConstructorOptions")
    (framed_options "cfg" "Settings" "")
  /\ conforms Part000.decls (ref "InitOptions")
       (framed_options "cfg" "Settings" "").
Proof.
  assert (Hc : conforms Part000.decls (ref "ConfigConstructorOptions")
                 (framed_options "cfg" "Settings" ""))
    by (exists 6; vm_compute; reflexivity).
  split; [exact Hc|].
  exact (proj1 (proj2 (constructor_options_need_frame _ Hc))).
Defined.

(** * Well-formed tables *)

Lemma dedup_subset l x : In x (dedup l) -> In x l.
Proof.
  revert x. induction l as [|y l IH]; intros x; simpl; [tauto|].
  intros [H|H]; [now left|]. apply filter_In in H. right. now apply IH.
Qed.

Lemma dedup_length l : length (dedup l) <= length l.
Proof.
  induction l as [|y l IH]; simpl; [lia|].
  pose proof (filter_length_le (fun z => negb (String.eqb y z)) (dedup l)).
  lia.
Qed.

Lemma filter_same_length {A} (f : A -> bool) l :
  length (filter f l) = length l -> filter f l = l.
Proof.
  induction l as [|a l IH]; simpl; [reflexivity|].
  destruct (f a); simpl; intros H.
  - f_equal. apply IH. lia.
  - pose proof (filter_length_le f l). lia.
Qed.

(** When removing repetitions loses nothing, there were none. *)
Lemma dedup_same_length_nodup l :
  length (dedup l) = length l -> NoDup l.
Proof.
  induction l as [|y l IH]; simpl; intros H; [constructor|].
  pose proof (filter_length_le (fun z => negb (String.eqb y z)) (dedup l)).
  pose proof (dedup_length l).
  assert (E1 : length (dedup l) = length l) by lia.
  assert (E2 : filter (fun z => negb (String.eqb y z)) (dedup l) = dedup l)
    by (apply filter_same_length; lia).
  constructor; [|now apply IH].
  intros Hin.
  assert (Hd : In y (dedup l)).
  { clear - Hin. induction l as [|z l IH]; simpl in *; [tauto|].
    destruct Hin as [->|Hin]; [now left|].
    destruct (String.eqb z y) eqn:E.
    - apply String.eqb_eq in E. now left.
    - right. apply filter_In. split; [now apply IH|]. now rewrite E. }
  rewrite <- E2 in Hd. apply filter_In in Hd. destruct Hd as [_ Hd].
  rewrite String.eqb_refl in Hd. discriminate.
Qed.

(** Both declaration files are well formed: in each, no type name is
    declared twice, every type name that a declaration mentions is declared
    in the same file or is one of the library names, and every type
    parameter is used within the declaration or signature that binds
    it. *)
Theorem declarations_well_formed (D : list decl) :
  In D source_tables ->
  NoDup (type_names D)
  /\ (forall d name, In d D -> In name (decl_refs d) -> resolves D name = true)
  /\ (forall d, In d D -> unbound_vars d = []).
Proof.
  intros HD.
  assert (W : well_formed D = true)
    by (destruct HD as [<-|[<-|[]]]; vm_compute; reflexivity).
  unfold well_formed in W. rewrite !andb_true_iff in W.
  destruct W as [[W1 W2] W3]. repeat apply conj.
  - apply dedup_same_length_nodup. now apply Nat.eqb_eq.
  - intros d name Hd Hn. rewrite forallb_forall in W2. apply W2.
    apply in_flat_map. eauto.
  - intros d Hd. rewrite forallb_forall in W3. specialize (W3 d Hd).
    destruct (unbound_vars d); [reflexivity | discriminate].
Qed.

(** [declarations_well_formed] at [index.d.ts]. *)
Lemma declarations_well_formed_witness :
  In IndexDts.decls source_tables /\ NoDup (type_names IndexDts.decls).
Proof.
  assert (H : In IndexDts.decls source_tables) by (left; reflexivity).
  split; [exact H | exact (proj1 (declarations_well_formed _ H))].
Defined.
